(** * minivdom: a reactive renderer with dependency tracking

    A shallow embedding of [minivdom.js]: the reactive cells created by
    [state], the identifier counter [uid], the context stack [_id_stack]
    and the recursive renderer [RenderDOM], together with the part of the
    DOM the program drives (element creation, attributes, class tokens,
    child lists, lookup by attribute and node replacement).

    The program is single threaded and synchronous.  Its global variables
    and the closures of its cells are gathered in a record [State] that
    every operation threads explicitly; a JavaScript exception is the
    [Raise] outcome of an operation, and the state it leaves behind is
    returned next to it, because nothing in the program rolls back.

    Scope of the model.
    - A component function is what it does to the program when called:
      the cells it reads, in order, then the description it returns or
      the exception it throws.  Components that write cells or touch the
      document while they are rendered are not covered; writes come from
      the top level, as those of the event handlers do.
    - Cells hold data: [undefined], [null], booleans, strings, symbols,
      BigInts, plain objects of data, and the numbers [NaN] and the
      integers of the safe range.  Numbers with a fractional part, the
      infinities and the integers beyond the safe range are left out.
    - An entry of an attribute map is a datum under any key, or a function
      under a key [on...], which is how an event handler is given.
    - The tests a browser makes on the syntax of an element name and of an
      attribute name have changed between versions of the DOM standard:
      they are the two parameters [valid_element_name] and
      [valid_attribute_name] of the development, of which only the
      acceptance of [data-uid] and [id] is assumed. *)

From Stdlib Require Import ZArith Lia Ascii String.
From stdpp Require Import base option list strings gmap sorting pretty.

Local Open Scope string_scope.
Local Open Scope nat_scope.
Local Open Scope list_scope.
Set Warnings "-register-all,-clear-no-such-hyp".

(** * Part I: the program *)

(** ** JavaScript values *)

(** [Number.MAX_SAFE_INTEGER]: up to it, in absolute value, every integer
    is a number and is printed in full decimal. *)
Definition max_safe_integer : Z := 9007199254740991.

Definition is_safe_integer (z : Z) : bool := (Z.abs z <=? max_safe_integer)%Z.

Record SafeInt := MkSafeInt {
  int_val : Z;
  int_safe : Is_true (is_safe_integer int_val)
}.

(** Data held by cells and passed around.  [DNumber] is an integer valued
    number of the safe range (the two zeros are one value here: both are
    falsy and print as [0]). *)
Inductive Data :=
| DUndefined
| DNull
| DBool (b : bool)
| DNumber (n : SafeInt)
| DNaN
| DBigInt (z : Z)
| DStr (s : string)
| DSymbol (description : string)
| DObj (fields : list (string * Data)).

(** A number literal. *)
Notation "'DNum' z" := (DNumber (MkSafeInt z I)) (at level 10, z at level 9).

(** Exceptions: the errors of the engine and of the DOM, and the values
    thrown by components. *)
Inductive Exn :=
| TypeError
| ReferenceError
| InvalidCharacterError
| SyntaxError
| Thrown (d : Data).

Inductive Res (A : Type) :=
| Ok (a : A)
| Raise (e : Exn).
Arguments Ok {A} a.
Arguments Raise {A} e.

Definition is_ok {A} (r : Res A) : bool :=
  match r with Ok _ => true | Raise _ => false end.

Definition res_bind {A B} (r : Res A) (f : A -> Res B) : Res B :=
  match r with Ok a => f a | Raise e => Raise e end.

(** An event handler: a function the renderer stores on an element and
    never calls. *)
Inductive Handler := HandlerRef (name : string).

(** An entry of an attribute map: a datum under a key, or a function
    under the key [on] followed by the name of an event. *)
Inductive Entry :=
| EAttr (k : string) (d : Data)
| EHandler (event : string) (h : Handler).

Definition entry_key (e : Entry) : string :=
  match e with
  | EAttr k _ => k
  | EHandler event _ => "on" +:+ event
  end.

(** Node descriptions are JavaScript values: data, functions, arrays and
    plain objects.  A function is given by its body, which depends on the
    arguments of the call.  A body is the sequence of cell reads it
    performs (each read is the getter [value]), ended by the description
    it returns or by the exception it throws. *)
Inductive JsVal :=
| VData (d : Data)
| VFun (f : Func)
| VArr (items : list JsVal)
| VObj (entries : list Entry)
with Func :=
| Fn (body : list Data -> Comp)
with Comp :=
| Ret (v : JsVal)
| Read (c : string) (k : Data -> Comp)
| Throw (e : Exn).

(** [f(a1, ..., an)] *)
Definition apply (f : Func) (args : list Data) : Comp :=
  match f with Fn body => body args end.

(** [!node]: the falsy values are [undefined], [null], [false], [0],
    [NaN], [0n] and the empty string. *)
Definition truthy (d : Data) : bool :=
  match d with
  | DUndefined | DNull | DNaN => false
  | DBool b => b
  | DNumber n => negb (int_val n =? 0)%Z
  | DBigInt z => negb (z =? 0)%Z
  | DStr s => negb (String.eqb s "")
  | DSymbol _ => true
  | DObj _ => true
  end.

(** The string conversion of an object whose own keys are [keys]: the
    inherited [toString] answers, unless an own property hides it, which
    no value of the model can do with a function. *)
Definition object_text (keys : list string) : option string :=
  if bool_decide ("toString" ∈ keys) then None else Some "[object Object]".

(** The string conversion applied by [createTextNode] and [setAttribute];
    [None] where it throws a [TypeError]. *)
Definition to_string (d : Data) : option string :=
  match d with
  | DUndefined => Some "undefined"
  | DNull => Some "null"
  | DBool true => Some "true"
  | DBool false => Some "false"
  | DNumber n => Some (pretty (int_val n))
  | DNaN => Some "NaN"
  | DBigInt z => Some (pretty z)
  | DStr s => Some s
  | DSymbol _ => None
  | DObj fields => object_text fields.*1
  end.

(** [Object.prototype.toString.call(v) === "[object Object]"]: the plain
    objects, seen as their entries in the order [Object.entries] lists
    them. *)
Definition as_attrs (v : JsVal) : option (list Entry) :=
  match v with
  | VObj entries => Some entries
  | VData (DObj fields) => Some ((λ kd, EAttr kd.1 kd.2) <$> fields)
  | _ => None
  end.

(** ** The DOM *)

(** An element has a local name, attributes (set by [setAttribute]),
    properties holding functions (set by assignment), the token list of
    its [class] attribute, and children; a text node has its text. *)
Inductive DomNode :=
| Element (localName : string) (attributes : list (string * string))
    (properties : list (string * Handler)) (classList : list string)
    (childNodes : list DomNode)
| TextNode (data : string).

(** Assignment to a key of an insertion-ordered table: an existing key
    keeps its place. *)
Fixpoint assoc_set {V} (k : string) (v : V) (l : list (string * V))
  : list (string * V) :=
  match l with
  | [] => [(k, v)]
  | (k', v') :: r =>
      if String.eqb k' k then (k, v) :: r else (k', v') :: assoc_set k v r
  end.

Fixpoint assoc_get {V} (k : string) (l : list (string * V)) : option V :=
  match l with
  | [] => None
  | (k', v') :: r => if String.eqb k' k then Some v' else assoc_get k r
  end.

(** ASCII lower case, which HTML applies to element and attribute names. *)
Definition lower_ascii (c : ascii) : ascii :=
  let n := nat_of_ascii c in
  if (65 <=? n) && (n <=? 90) then ascii_of_nat (n + 32) else c.

Fixpoint lower (s : string) : string :=
  match s with
  | EmptyString => EmptyString
  | String c r => String (lower_ascii c) (lower r)
  end.

(** ASCII white space, as the DOM standard lists it. *)
Definition is_ascii_whitespace (c : ascii) : bool :=
  match c with
  | "009" | "010" | "012" | "013" | " " => true
  | _ => false
  end%char.

Fixpoint no_whitespace (s : string) : bool :=
  match s with
  | EmptyString => true
  | String c r => negb (is_ascii_whitespace c) && no_whitespace r
  end.

(** An ordered set of tokens: a token already there is not added. *)
Definition add_token (c : list string) (tok : string) : list string :=
  if bool_decide (tok ∈ c) then c else c ++ [tok].

Definition close_token (cur : string) : list string :=
  match cur with
  | EmptyString => []
  | _ => [cur]
  end.

(** The runs of characters between white space; [cur] is the run being
    read. *)
Fixpoint split_whitespace (cur s : string) : list string :=
  match s with
  | EmptyString => close_token cur
  | String c r =>
      if is_ascii_whitespace c then close_token cur ++ split_whitespace "" r
      else split_whitespace (cur +:+ String c "") r
  end.

(** The token set of a [class] attribute, and its serialisation. *)
Definition class_tokens (v : string) : list string :=
  foldl add_token [] (split_whitespace "" v).

Definition join_tokens (l : list string) : string :=
  match l with
  | [] => ""
  | t :: r => foldl (λ acc x, acc +:+ " " +:+ x) t r
  end.

(** [el.getAttribute(k)]: the name is looked up in lower case. *)
Definition getAttribute (k : string) (n : DomNode) : option string :=
  match n with
  | Element _ a _ _ _ => assoc_get (lower k) a
  | TextNode _ => None
  end.

(** The function the program assigned to [el[k]], if any; what the
    browser itself keeps behind a key is not part of the model. *)
Definition getProperty (k : string) (n : DomNode) : option Handler :=
  match n with
  | Element _ _ p _ _ => assoc_get k p
  | TextNode _ => None
  end.

(** [el[k] = v] for a function [v] and a key [on...]: the property holds
    the function, and no attribute is written. *)
Definition setProperty (k : string) (h : Handler) (n : DomNode) : DomNode :=
  match n with
  | Element t a p c ch => Element t a (assoc_set k h p) c ch
  | TextNode _ => n
  end.

(** [el.classList.add(tok)]: the token joins the set and the [class]
    attribute is written again from the set. *)
Definition classList_add (tok : string) (n : DomNode) : Res DomNode :=
  match n with
  | Element t a p c ch =>
      if String.eqb tok "" then Raise SyntaxError
      else if no_whitespace tok then
        Ok (Element t (assoc_set "class" (join_tokens (add_token c tok)) a) p
              (add_token c tok) ch)
      else Raise InvalidCharacterError
  | TextNode _ => Raise TypeError
  end.

Definition appendChild (child : DomNode) (n : DomNode) : DomNode :=
  match n with
  | Element t a p c ch => Element t a p c (ch ++ [child])
  | TextNode _ => n
  end.

Definition classes_of (n : DomNode) : list string :=
  match n with Element _ _ _ c _ => c | TextNode _ => [] end.

Definition tag_of (n : DomNode) : option string :=
  match n with Element t _ _ _ _ => Some t | TextNode _ => None end.

Definition children_of (n : DomNode) : list DomNode :=
  match n with Element _ _ _ _ ch => ch | TextNode _ => [] end.

(** A node of the document is referred to by its path from the root:
    the index of a top-level node, then child indices. *)
Definition bump (p : list nat) : list nat :=
  match p with
  | i :: q => S i :: q
  | [] => []
  end.

Section find_in.
Variable Q : DomNode -> option (list nat).

(** First hit of [Q] in a list of siblings, left to right. *)
Fixpoint find_in (l : list DomNode) : option (list nat) :=
  match l with
  | [] => None
  | n :: r =>
      match Q n with
      | Some p => Some (0 :: p)
      | None => bump <$> find_in r
      end
  end.
End find_in.

(** The selector built by [set] is [[data-uid="id"], left open, which the
    end of the selector closes: the first element, in document order,
    whose attribute [data-uid] is the given string. *)
Fixpoint query_node (u : string) (n : DomNode) : option (list nat) :=
  match n with
  | TextNode _ => None
  | Element _ a _ _ ch =>
      if bool_decide (assoc_get "data-uid" a = Some u) then Some []
      else find_in (query_node u) ch
  end.

Definition querySelector (u : string) (doc : list DomNode)
  : option (list nat) :=
  find_in (query_node u) doc.

(** [el.replaceWith(dom)] for the node [el] at path [p]. *)
Fixpoint replaceWith (p : list nat) (new : DomNode) (l : list DomNode)
  : list DomNode :=
  match p with
  | [] => l
  | [i] => <[i := new]> l
  | i :: q =>
      match l !! i with
      | Some (Element t a pr c ch) =>
          <[i := Element t a pr c (replaceWith q new ch)]> l
      | _ => l
      end
  end.

Fixpoint node_at (p : list nat) (l : list DomNode) : option DomNode :=
  match p with
  | [] => None
  | [i] => l !! i
  | i :: q =>
      match l !! i with
      | Some (Element _ _ _ _ ch) => node_at q ch
      | _ => None
      end
  end.

(** ** The tag specifier *)

Definition is_sep (c : ascii) : bool :=
  bool_decide (c = "."%char) || bool_decide (c = "#"%char).

(** [/^[^\.#]+/]: the longest prefix free of [.] and [#]. *)
Fixpoint span_token (s : string) : string :=
  match s with
  | EmptyString => EmptyString
  | String c r => if is_sep c then EmptyString else String c (span_token r)
  end.

(** [s.match(/^[^\.#]+/)]: [null] when the prefix is empty. *)
Definition match_tag (s : string) : option string :=
  match span_token s with
  | EmptyString => None
  | t => Some t
  end.

(** The run read after a marker is a match when it is not empty. *)
Definition close_run (m : ascii) (cur : option string) : list string :=
  match cur with
  | Some (String c t) => [String m (String c t)]
  | _ => []
  end.

(** [s.match(/\.[^\.#]+/g)] and [s.match(/\#[^\.#]+/g)]: every maximal run
    of ordinary characters that directly follows the marker [m], left to
    right, each with its marker.  [cur] is the run being read, if the
    last separator met was the marker. *)
Fixpoint scan_frags (m : ascii) (cur : option string) (s : string)
  : list string :=
  match s with
  | EmptyString => close_run m cur
  | String c r =>
      if is_sep c then
        close_run m cur
          ++ scan_frags m (if bool_decide (c = m) then Some "" else None) r
      else
        scan_frags m ((λ t, t +:+ String c "") <$> cur) r
  end.

(** A match with the [g] flag; the caller turns [null] into [[]]. *)
Definition match_all (m : ascii) (s : string) : list string :=
  scan_frags m None s.

(** [s.slice(1)] *)
Definition slice1 (s : string) : string :=
  match s with
  | EmptyString => EmptyString
  | String _ r => r
  end.

(** ** Program state *)

(** A line written by [console.log] in [set]. *)
Inductive LogLine :=
| LogVisit (id : nat) (node : Func)
| LogFree (id : nat).

(** The closure of one cell: [value] and [subscribers].  The keys of
    [subscribers] are the property names made from identifiers; the table
    is keyed by the identifier itself. *)
Record CellRec := MkCell {
  value : Data;
  subscribers : gmap nat Func
}.

(** The globals [_id] and [_id_stack] (top of the stack first), the cells
    by the name of the variable that holds them, the children of the
    document body, and the console. *)
Record State := MkState {
  _id : nat;
  _id_stack : list (nat * Func);
  cells : gmap string CellRec;
  document : list DomNode;
  console : list LogLine
}.

Definition initial : State := MkState 0 [] ∅ [] [].

Definition with_id (n : nat) (s : State) : State :=
  MkState n (_id_stack s) (cells s) (document s) (console s).
Definition with_stack (st : list (nat * Func)) (s : State) : State :=
  MkState (_id s) st (cells s) (document s) (console s).
Definition with_cells (cs : gmap string CellRec) (s : State) : State :=
  MkState (_id s) (_id_stack s) cs (document s) (console s).
Definition with_document (d : list DomNode) (s : State) : State :=
  MkState (_id s) (_id_stack s) (cells s) d (console s).
Definition console_log (l : LogLine) (s : State) : State :=
  MkState (_id s) (_id_stack s) (cells s) (document s) (console s ++ [l]).

(** The subscriber table of a cell; empty for a name that holds no cell. *)
Definition subs (c : string) (s : State) : gmap nat Func :=
  match cells s !! c with
  | Some r => subscribers r
  | None => ∅
  end.

(** [let s = state(x)] for the variable [c]. *)
Definition state (c : string) (x : Data) (s : State) : State :=
  with_cells (<[c := MkCell x ∅]> (cells s)) s.

(** [uid()] *)
Definition uid (s : State) : nat * State := (_id s, with_id (S (_id s)) s).

(** [current_id()]: the last pushed pair, [undefined] on an empty stack. *)
Definition current_id (s : State) : option (nat * Func) := head (_id_stack s).

Definition push (e : nat * Func) (s : State) : State :=
  with_stack (e :: _id_stack s) s.
Definition pop (s : State) : State := with_stack (tail (_id_stack s)) s.

(** The getter [value] of the cell held by [c]. *)
Definition cell_get (c : string) (s : State) : Res Data * State :=
  match cells s !! c with
  | None => (Raise ReferenceError, s)
  | Some r =>
      match current_id s with
      | Some (id, comp) =>
          (Ok (value r),
           with_cells
             (<[c := MkCell (value r) (<[id := comp]> (subscribers r))]>
                (cells s)) s)
      | None => (Ok (value r), s)
      end
  end.

(** The run of a body. *)
Fixpoint invoke (body : Comp) (s : State) : Res JsVal * State :=
  match body with
  | Ret v => (Ok v, s)
  | Read c k =>
      match cell_get c s with
      | (Ok d, s1) => invoke (k d) s1
      | (Raise e, s1) => (Raise e, s1)
      end
  | Throw e => (Raise e, s)
  end.

(** The body run by the call [node()], which passes no argument. *)
Definition body_of (f : Func) : Comp := apply f [].

(** [node()] *)
Definition call (f : Func) (s : State) : Res JsVal * State :=
  invoke (body_of f) s.

(** [Object.entries(subscribers)]: the keys are integer indices, which
    JavaScript enumerates in ascending order. *)
Definition entry_le (a b : nat * Func) : Prop := a.1 ≤ b.1.

#[global] Instance entry_le_dec : RelDecision entry_le :=
  λ a b, decide (a.1 ≤ b.1).

Definition Object_entries (m : gmap nat Func) : list (nat * Func) :=
  merge_sort entry_le (map_to_list m).

(** [delete subscribers[id]] in the cell held by [c]. *)
Definition delete_subscriber (c : string) (id : nat) (s : State) : State :=
  match cells s !! c with
  | Some r =>
      with_cells (<[c := MkCell (value r) (delete id (subscribers r))]> (cells s)) s
  | None => s
  end.

(** [value = x] in the cell held by [c]. *)
Definition store (c : string) (x : Data) (s : State) : State :=
  match cells s !! c with
  | Some r => with_cells (<[c := MkCell x (subscribers r)]> (cells s)) s
  | None => s
  end.

(** ** The name checks of a browser *)

(** What the program needs of the browser it runs in: the test
    [createElement] makes on a name, the one [setAttribute] makes, and
    that the two attribute names the program writes itself pass the
    latter. *)
Class Dom := {
  valid_element_name : string -> bool;
  valid_attribute_name : string -> bool;
  valid_data_uid : valid_attribute_name "data-uid" = true;
  valid_id : valid_attribute_name "id" = true
}.

Definition is_ascii_alpha (c : ascii) : bool :=
  let n := nat_of_ascii c in
  ((65 <=? n) && (n <=? 90)) || ((97 <=? n) && (n <=? 122)).

Definition is_ascii_digit (c : ascii) : bool :=
  let n := nat_of_ascii c in (48 <=? n) && (n <=? 57).

Fixpoint all_chars (P : ascii -> bool) (s : string) : bool :=
  match s with
  | EmptyString => true
  | String c r => P c && all_chars P r
  end.

(** The tests of the DOM Living Standard, on the bytes of a name. *)
Definition standard_element_name (s : string) : bool :=
  match s with
  | EmptyString => false
  | String c r =>
      if is_ascii_alpha c then
        all_chars (λ x, negb (is_ascii_whitespace x
                              || bool_decide (x = "000"%char)
                              || bool_decide (x = "/"%char)
                              || bool_decide (x = ">"%char))) r
      else
        (bool_decide (c = ":"%char) || bool_decide (c = "_"%char)
         || (128 <=? nat_of_ascii c))
        && all_chars (λ x, is_ascii_alpha x || is_ascii_digit x
                           || bool_decide (x = "-"%char)
                           || bool_decide (x = "."%char)
                           || bool_decide (x = ":"%char)
                           || bool_decide (x = "_"%char)
                           || (128 <=? nat_of_ascii x)) r
  end.

Definition standard_attribute_name (s : string) : bool :=
  negb (String.eqb s "")
  && all_chars (λ x, negb (is_ascii_whitespace x
                           || bool_decide (x = "000"%char)
                           || bool_decide (x = "/"%char)
                           || bool_decide (x = "="%char)
                           || bool_decide (x = ">"%char))) s.

Definition living_standard : Dom :=
  {| valid_element_name := standard_element_name;
     valid_attribute_name := standard_attribute_name;
     valid_data_uid := eq_refl;
     valid_id := eq_refl |}.

Section minivdom.
Context {browser : Dom}.

(** ** The DOM operations that test a name *)

(** [document.createElement(tag)] in an HTML document. *)
Definition createElement (tag : string) : Res DomNode :=
  if valid_element_name tag then Ok (Element (lower tag) [] [] [] [])
  else Raise InvalidCharacterError.

(** [document.createTextNode(d)] *)
Definition createTextNode (d : Data) : Res DomNode :=
  match to_string d with
  | Some t => Ok (TextNode t)
  | None => Raise TypeError
  end.

(** [el.setAttribute(k, v)] for a string [v]; a text node has no such
    method.  Writing the [class] attribute sets the token list. *)
Definition setAttribute (k v : string) (n : DomNode) : Res DomNode :=
  match n with
  | Element t a p c ch =>
      if valid_attribute_name k then
        Ok (Element t (assoc_set (lower k) v a) p
              (if String.eqb (lower k) "class" then class_tokens v else c) ch)
      else Raise InvalidCharacterError
  | TextNode _ => Raise TypeError
  end.

(** ** The renderer *)

(** The attribute loop of [RenderDOM]: a function is assigned to the
    property, anything else goes through [setAttribute], which converts
    it to a string first. *)
Fixpoint apply_attrs (attrs : list Entry) (el : DomNode) : Res DomNode :=
  match attrs with
  | [] => Ok el
  | EHandler event h :: r => apply_attrs r (setProperty ("on" +:+ event) h el)
  | EAttr k d :: r =>
      match to_string d with
      | Some v => res_bind (setAttribute k v el) (apply_attrs r)
      | None => Raise TypeError
      end
  end.

(** [classes.forEach((s) => el.classList.add(s.slice(1)))] *)
Definition add_classes (classes : list string) (el : DomNode) : Res DomNode :=
  foldl (λ r s, res_bind r (classList_add (slice1 s))) (Ok el) classes.

(** [if (ids[0]) el.setAttribute("id", ids[0].slice(1))] *)
Definition set_id (ids : list string) (el : DomNode) : Res DomNode :=
  match ids with
  | i :: _ => setAttribute "id" (slice1 i) el
  | [] => Ok el
  end.

(** Everything done to the fresh element before the children are met. *)
Definition decorate (spec tag : string) (attrs : option (list Entry))
  : Res DomNode :=
  res_bind (createElement tag) (λ el,
  res_bind (apply_attrs (default [] attrs) el) (λ el,
  res_bind (add_classes (match_all "." spec) el) (λ el,
  set_id (match_all "#" spec) el))).

(** [dom.setAttribute("data-uid", id)] on what [RenderDOM] returned:
    [undefined] and a text node have no such method. *)
Definition stamp (id : nat) (dom : option DomNode) : Res DomNode :=
  match dom with
  | Some n => setAttribute "data-uid" (pretty id) n
  | None => Raise TypeError
  end.

Section render_children.
Variable render : JsVal -> State -> Res (option DomNode) * State.

(** [children.forEach(...)]: render each child in order and append the
    ones that gave a node. *)
Fixpoint render_children (children : list JsVal) (el : DomNode) (s : State)
  : Res (option DomNode) * State :=
  match children with
  | [] => (Ok (Some el), s)
  | child :: rest =>
      match render child s with
      | (Ok (Some cnode), s1) => render_children rest (appendChild cnode el) s1
      | (Ok None, s1) => render_children rest el s1
      | (Raise e, s1) => (Raise e, s1)
      end
  end.
End render_children.

(** [RenderDOM(node)], and [render_ret body], which is [RenderDOM(node())]
    for the body of [node]: the call and the rendering of what it
    returns. *)
Fixpoint RenderDOM (node : JsVal) (s : State) {struct node}
  : Res (option DomNode) * State :=
  match node with
  | VData d =>
      if truthy d then
        match createTextNode d with
        | Ok n => (Ok (Some n), s)
        | Raise e => (Raise e, s)
        end
      else (Ok None, s)
  | VFun (Fn body) =>
      let '(id, s0) := uid s in
      let s1 := push (id, Fn body) s0 in
      match render_ret (body []) s1 with
      | (Ok dom, s2) =>
          match stamp id dom with
          | Ok dom' => (Ok (Some dom'), pop s2)
          | Raise e => (Raise e, s2)
          end
      | (Raise e, s2) => (Raise e, s2)
      end
  | VArr items =>
      match items with
      | VData (DStr spec) :: rest =>
          match match_tag spec with
          | None => (Raise TypeError, s)
          | Some tag =>
              match rest with
              | second :: rest' =>
                  match as_attrs second with
                  | Some attrs =>
                      match decorate spec tag (Some attrs) with
                      | Ok el => render_children RenderDOM rest' el s
                      | Raise e => (Raise e, s)
                      end
                  | None =>
                      match decorate spec tag None with
                      | Ok el => render_children RenderDOM rest el s
                      | Raise e => (Raise e, s)
                      end
                  end
              | [] =>
                  match decorate spec tag None with
                  | Ok el => render_children RenderDOM rest el s
                  | Raise e => (Raise e, s)
                  end
              end
          end
      | _ => (Raise TypeError, s)
      end
  | VObj entries =>
      match object_text (entry_key <$> entries) with
      | Some t => (Ok (Some (TextNode t)), s)
      | None => (Raise TypeError, s)
      end
  end
with render_ret (body : Comp) (s : State) {struct body}
  : Res (option DomNode) * State :=
  match body with
  | Ret v => RenderDOM v s
  | Read c k =>
      match cell_get c s with
      | (Ok d, s1) => render_ret (k d) s1
      | (Raise e, s1) => (Raise e, s1)
      end
  | Throw e => (Raise e, s)
  end.

(** The second entry of an element description is an attribute map when
    it is a plain object; the children follow. *)
Definition split_attrs (rest : list JsVal)
  : option (list Entry) * list JsVal :=
  match rest with
  | second :: rest' =>
      match as_attrs second with
      | Some attrs => (Some attrs, rest')
      | None => (None, rest)
      end
  | [] => (None, [])
  end.

(** ** Writing a cell *)

(** The body of the [for] loop of [set], over the entries taken when the
    loop began. *)
Fixpoint set_loop (c : string) (entries : list (nat * Func)) (s : State)
  : Res unit * State :=
  match entries with
  | [] => (Ok (), s)
  | (id, node) :: rest =>
      let s1 := console_log (LogVisit id node) s in
      match querySelector (pretty id) (document s1) with
      | Some el =>
          match render_ret (body_of node) s1 with
          | (Ok dom, s2) =>
              match stamp id dom with
              | Ok dom' =>
                  set_loop c rest
                    (with_document (replaceWith el dom' (document s2)) s2)
              | Raise e => (Raise e, s2)
              end
          | (Raise e, s2) => (Raise e, s2)
          end
      | None =>
          set_loop c rest (delete_subscriber c id (console_log (LogFree id) s1))
      end
  end.

(** [c.set(x)] *)
Definition set (c : string) (x : Data) (s : State) : Res unit * State :=
  match cells s !! c with
  | None => (Raise ReferenceError, s)
  | Some r => set_loop c (Object_entries (subscribers r)) (store c x s)
  end.

(** [document.body.appendChild(RenderDOM(node))] *)
Definition mount (node : JsVal) (s : State) : Res unit * State :=
  match RenderDOM node s with
  | (Ok (Some dom), s1) => (Ok (), with_document (document s1 ++ [dom]) s1)
  | (Ok None, s1) => (Raise TypeError, s1)
  | (Raise e, s1) => (Raise e, s1)
  end.
(** ** What the operations may change *)

Record render_frame (s : State) (normal : bool) (s' : State) : Prop := {
  rf_id : _id s ≤ _id s';
  rf_stack :
    ∃ extra, _id_stack s' = extra ++ _id_stack s
      ∧ Forall (λ e : nat * Func, _id s ≤ e.1 < _id s') extra
      ∧ (normal = true -> extra = []);
  rf_document : document s' = document s;
  rf_console : console s' = console s;
  rf_value : ∀ c, value <$> cells s' !! c = value <$> cells s !! c;
  rf_subs : ∀ c k,
    subs c s' !! k = subs c s !! k
    ∨ ∃ f, subs c s' !! k = Some f
        ∧ (_id s ≤ k < _id s' ∨ current_id s = Some (k, f))
}.

(** The entries a write visited and the identifiers it freed, read off
    the console. *)
Definition visits (lines : list LogLine) : list (nat * Func) :=
  omap (λ l, match l with LogVisit id node => Some (id, node) | _ => None end)
    lines.

Definition freed (lines : list LogLine) : list nat :=
  omap (λ l, match l with LogFree id => Some id | _ => None end) lines.

Record write_frame (c : string) (entries : list (nat * Func)) (s : State)
    (normal : bool) (s' : State) (lines : list LogLine) : Prop := {
  wf_id : _id s ≤ _id s';
  wf_stack :
    ∃ extra, _id_stack s' = extra ++ _id_stack s
      ∧ (normal = true -> extra = []);
  wf_console : console s' = console s ++ lines;
  wf_visits :
    visits lines `prefix_of` entries
    ∧ (normal = true -> visits lines = entries);
  wf_freed_sub : freed lines ⊆ entries.*1;
  wf_value : ∀ c', value <$> cells s' !! c' = value <$> cells s !! c';
  wf_subs : ∀ c' k,
    subs c' s' !! k = subs c' s !! k
    ∨ (c' = c ∧ subs c s' !! k = None ∧ k ∈ freed lines)
    ∨ ∃ f, subs c' s' !! k = Some f
        ∧ (_id s ≤ k < _id s' ∨ current_id s = Some (k, f));
  wf_freed : ∀ k, k ∈ freed lines ->
    subs c s' !! k = None
    ∨ ∃ f, subs c s' !! k = Some f
        ∧ (_id s ≤ k < _id s' ∨ current_id s = Some (k, f))
}.

(** Every identifier in a subscriber table came from the counter. *)
Definition subs_allocated (s : State) : Prop :=
  ∀ c k, is_Some (subs c s !! k) -> k < _id s.

(** The lines a write added to the console. *)
Definition new_lines (s s' : State) : list LogLine :=
  drop (length (console s)) (console s').

(** The cells whose getter a call runs, in order. *)
Fixpoint reads_of (body : Comp) (s : State) : list string :=
  match body with
  | Read c k =>
      c :: match cell_get c s with
           | (Ok d, s1) => reads_of (k d) s1
           | (Raise _, _) => []
           end
  | _ => []
  end.

(** ** Tag specifiers built from fragments *)

(** A fragment of a tag specifier: [#token] or [.token]. *)
Inductive Frag :=
| FId (t : string)
| FClass (t : string).

Definition marker (f : Frag) : ascii :=
  match f with FId _ => "#"%char | FClass _ => "."%char end.

Definition token (f : Frag) : string :=
  match f with FId t | FClass t => t end.

Definition frags_text (frs : list Frag) : string :=
  foldr (λ f acc, String (marker f) (token f +:+ acc)) "" frs.

(** The specifier [tag] followed by the fragments [frs]. *)
Definition spec_of (tag : string) (frs : list Frag) : string :=
  tag +:+ frags_text frs.

Fixpoint no_sep (s : string) : bool :=
  match s with
  | EmptyString => true
  | String c r => negb (is_sep c) && no_sep r
  end.

(** A tag name or a token as the three patterns read them: not empty
    and free of [.] and [#]. *)
Definition is_token (t : string) : bool :=
  negb (String.eqb t "") && no_sep t.

Definition tokens_of (m : ascii) (frs : list Frag) : list string :=
  omap (λ f, if bool_decide (marker f = m) then Some (token f) else None) frs.

Definition starts_sep (s : string) : bool :=
  match s with
  | EmptyString => true
  | String c _ => is_sep c
  end.

(** ** The specification's reading of a write *)

(** The loop of [set] as the specification words it: a located subscriber
    is rendered through the renderer as a component reference, in a
    context of its own. *)
Fixpoint set_loop_through_renderer (c : string) (entries : list (nat * Func))
    (s : State) : Res unit * State :=
  match entries with
  | [] => (Ok (), s)
  | (id, node) :: rest =>
      let s1 := console_log (LogVisit id node) s in
      match querySelector (pretty id) (document s1) with
      | Some el =>
          match RenderDOM (VFun node) s1 with
          | (Ok dom, s2) =>
              match stamp id dom with
              | Ok dom' =>
                  set_loop_through_renderer c rest
                    (with_document (replaceWith el dom' (document s2)) s2)
              | Raise e => (Raise e, s2)
              end
          | (Raise e, s2) => (Raise e, s2)
          end
      | None =>
          set_loop_through_renderer c rest
            (delete_subscriber c id (console_log (LogFree id) s1))
      end
  end.

Definition set_through_renderer (c : string) (x : Data) (s : State)
  : Res unit * State :=
  match cells s !! c with
  | None => (Raise ReferenceError, s)
  | Some r =>
      set_loop_through_renderer c (Object_entries (subscribers r)) (store c x s)
  end.

(** ** The application at the end of the file *)

Definition str (s : string) : JsVal := VData (DStr s).

(** [d[k]] for a key [k] that no prototype defines: [undefined] unless
    [d] is a plain object that has it, a [TypeError] on [undefined] and
    [null]. *)
Definition get_field (k : string) (d : Data) (cont : Data -> Comp) : Comp :=
  match d with
  | DUndefined | DNull => Throw TypeError
  | DObj fields => cont (default DUndefined (assoc_get k fields))
  | _ => cont DUndefined
  end.

(** The template literal that follows [pre] by the string conversion of
    [d]. *)
Definition template (pre : string) (d : Data) (cont : string -> Comp) : Comp :=
  match to_string d with
  | Some t => cont (pre +:+ t)
  | None => Throw TypeError
  end.

Definition myComp : Func :=
  Fn (λ _, Read "counter" (λ n, template "current count: " n (λ count,
    Ret (VArr [str "div";
      VArr [str "p"; str count];
      VArr [str "button"; VObj [EHandler "click" (HandlerRef "increment")];
            str "increment"];
      VArr [str "button"; VObj [EHandler "click" (HandlerRef "change title")];
            str "change title"]])))).

Definition myApp : Func :=
  Fn (λ _, Read "stuff" (λ st, get_field "title" st (λ title,
    Read "counter" (λ n, template " " n (λ count,
      Ret (VArr [str "div";
        VArr [str "h1"; VData title; str count];
        VFun myComp])))))).

(** The two cells, before anything is rendered. *)
Definition app_cells : State :=
  state "stuff" (DObj [("title", DStr "hello world")])
    (state "counter" (DNum 0) initial).

(** After [document.body.appendChild(RenderDOM(myApp))]. *)
Definition app_mounted : State := (mount (VFun myApp) app_cells).2.

(** After a click on "change title". *)
Definition app_retitled : State :=
  (set "stuff" (DObj [("title", DStr "goodbye crabs")]) app_mounted).2.

(** A component that throws, one that returns nothing, and one that
    greets its first argument. *)
Definition thrower : Func := Fn (λ _, Throw (Thrown (DStr "boom"))).
Definition blank : Func := Fn (λ _, Ret (VData DNull)).

(** A component body that reads the cell [c] [n] times and returns [v]. *)
Fixpoint read_times (n : nat) (c : string) (v : JsVal) : Comp :=
  match n with
  | 0 => Ret v
  | S n' => Read c (λ _, read_times n' c v)
  end.

(** The paragraph of the counter. *)
Definition label : Func :=
  Fn (λ _, Read "counter" (λ n,
    Ret (VArr [str "p"; str "count: "; VData n]))).

Definition label_mounted : State :=
  (mount (VFun label) (state "counter" (DNum 0) initial)).2.



(** ** Runs of the program *)

(** What the top level and the event handlers do, one call at a time: a
    cell is created, read or written, a description is rendered, or
    rendered and appended to the body.  An exception ends the call and
    leaves the state as it is then. *)
Inductive Op :=
| OpState (c : string) (x : Data)
| OpGet (c : string)
| OpSet (c : string) (x : Data)
| OpRender (node : JsVal)
| OpMount (node : JsVal).

Definition step (o : Op) (s : State) : State :=
  match o with
  | OpState c x => state c x s
  | OpGet c => (cell_get c s).2
  | OpSet c x => (set c x s).2
  | OpRender node => (RenderDOM node s).2
  | OpMount node => (mount node s).2
  end.

Definition run (ops : list Op) : State := foldl (λ s o, step o s) initial ops.

(** Every identifier in a subscriber table or on the stack came from the
    counter. *)
Definition ids_allocated (s : State) : Prop :=
  subs_allocated s ∧ Forall (λ e : nat * Func, e.1 < _id s) (_id_stack s).

(** The descriptions that [RenderDOM] hands to [createTextNode]. *)
Definition renders_to_text (v : JsVal) : bool :=
  match v with
  | VData d => truthy d
  | VObj _ => true
  | _ => false
  end.

(** The data that [Object.prototype.toString] calls [[object Object]]. *)
Definition plain_object (d : Data) : bool :=
  match d with DObj _ => true | _ => false end.

(** An array whose first entry is a string with a leading tag name. *)
Definition well_headed (items : list JsVal) : bool :=
  match items with
  | VData (DStr spec) :: _ => negb (starts_sep spec)
  | _ => false
  end.

(** A component that reads no cell and holds, after a heading, the
    paragraph of the counter. *)
Definition panel : Func :=
  Fn (λ _, Ret (VArr [str "div"; VArr [str "h1"; str "panel"]; VFun label])).

Definition panel_mounted : State :=
  (mount (VFun panel) (state "counter" (DNum 0) initial)).2.

(** A component that throws once the counter is set, mounted before
    the paragraph of the counter. *)
Definition fragile : Func :=
  Fn (λ _, Read "counter" (λ n,
    if truthy n then Throw (Thrown (DStr "boom"))
    else Ret (VArr [str "p"; str "ok"]))).


Definition fragile_mounted : State :=
  (mount (VFun label)
     (mount (VFun fragile) (state "counter" (DNum 0) initial)).2).2.

(** Two paths neither of which leads through the other. *)
Fixpoint disjoint_paths (p q : list nat) : bool :=
  match p, q with
  | i :: p', j :: q' => if decide (i = j) then disjoint_paths p' q' else true
  | _, _ => false
  end.

(** ** Notions used in the statements *)

(** The context [RenderDOM] pushes for [node] before anything else. *)
Definition entered (node : JsVal) (s : State) : list (nat * Func) :=
  match node with
  | VFun f => [(_id s, f)]
  | _ => []
  end.

(** The name under which an entry of an attribute map reaches the
    element: an attribute name is put in lower case, a property name is
    not. *)
Definition attr_name (e : Entry) : string :=
  match e with
  | EAttr k _ => lower k
  | EHandler event _ => "on" +:+ event
  end.

(** An entry the attribute loop takes without an exception: a function,
    or a datum that has a string conversion under a name that
    [setAttribute] accepts. *)
Definition entry_ok (e : Entry) : bool :=
  match e with
  | EAttr k d => valid_attribute_name k && bool_decide (is_Some (to_string d))
  | EHandler _ _ => true
  end.

(** The value a map gives the attribute [name], if any; the first entry
    for it. *)
Fixpoint map_attr (name : string) (attrs : list Entry) : option string :=
  match attrs with
  | [] => None
  | EAttr k d :: r =>
      if String.eqb (lower k) name then to_string d else map_attr name r
  | EHandler _ _ :: r => map_attr name r
  end.

(** The function a map gives the property [name], if any. *)
Fixpoint map_handler (name : string) (attrs : list Entry) : option Handler :=
  match attrs with
  | [] => None
  | EHandler event h :: r =>
      if String.eqb ("on" +:+ event) name then Some h else map_handler name r
  | EAttr _ _ :: r => map_handler name r
  end.

(** The node a child that is a datum leaves in its parent: none when it
    is falsy, a text node of its string conversion otherwise. *)
Definition text_of (d : Data) : option DomNode :=
  if truthy d then TextNode <$> to_string d else None.

(** The data [createTextNode] is not called on or can convert. *)
Definition printable (d : Data) : bool :=
  negb (truthy d) || bool_decide (is_Some (to_string d)).



(** ** Induction over descriptions and component bodies *)

Section JsVal_Comp_ind.
Variables (P : JsVal -> Prop) (Q : Comp -> Prop).
Hypothesis HData : ∀ d, P (VData d).
Hypothesis HFun : ∀ body, Q (body []) -> P (VFun (Fn body)).
Hypothesis HArr : ∀ items, Forall P items -> P (VArr items).
Hypothesis HObj : ∀ entries, P (VObj entries).
Hypothesis HRet : ∀ v, P v -> Q (Ret v).
Hypothesis HRead : ∀ c k, (∀ d, Q (k d)) -> Q (Read c k).
Hypothesis HThrow : ∀ e, Q (Throw e).

Fixpoint JsVal_Comp_ind (v : JsVal) : P v :=
  match v with
  | VData d => HData d
  | VFun (Fn body) => HFun body (Comp_JsVal_ind (body []))
  | VArr items =>
      HArr items
        ((fix all (l : list JsVal) : Forall P l :=
            match l with
            | [] => Forall_nil_2 P
            | x :: r => Forall_cons_2 P x r (JsVal_Comp_ind x) (all r)
            end) items)
  | VObj entries => HObj entries
  end
with Comp_JsVal_ind (b : Comp) : Q b :=
  match b with
  | Ret v => HRet v (JsVal_Comp_ind v)
  | Read c k => HRead c k (λ d, Comp_JsVal_ind (k d))
  | Throw e => HThrow e
  end.
End JsVal_Comp_ind.

Section DomNode_forest_ind.
Variable P : DomNode -> Prop.
Hypothesis HElement : ∀ t a p c ch, Forall P ch -> P (Element t a p c ch).
Hypothesis HText : ∀ d, P (TextNode d).

Fixpoint DomNode_forest_ind (n : DomNode) : P n :=
  match n with
  | Element t a p c ch =>
      HElement t a p c ch
        ((fix all (l : list DomNode) : Forall P l :=
            match l with
            | [] => Forall_nil_2 P
            | x :: r => Forall_cons_2 P x r (DomNode_forest_ind x) (all r)
            end) ch)
  | TextNode d => HText d
  end.
End DomNode_forest_ind.
(** * Part II: properties *)

(** ** Basic facts about the state operations *)

Lemma subs_with_cells_insert c c' v m s :
  subs c' (with_cells (<[c := MkCell v m]> (cells s)) s)
  = if decide (c' = c) then m else subs c' s.
Proof.
  unfold subs; simpl. destruct (decide (c' = c)) as [->|Hne].
  - by rewrite lookup_insert_eq.
  - by rewrite lookup_insert_ne.
Qed.

Lemma value_with_cells_insert c c' v m s :
  value <$> (<[c := MkCell v m]> (cells s) !! c')
  = if decide (c' = c) then Some v else value <$> (cells s !! c').
Proof.
  destruct (decide (c' = c)) as [->|Hne].
  - by rewrite lookup_insert_eq.
  - by rewrite lookup_insert_ne.
Qed.

Lemma Object_entries_Permutation m : Object_entries m ≡ₚ map_to_list m.
Proof. apply merge_sort_Permutation. Qed.

Lemma elem_of_Object_entries m k f :
  (k, f) ∈ Object_entries m ↔ m !! k = Some f.
Proof. by rewrite Object_entries_Permutation, elem_of_map_to_list. Qed.

Lemma NoDup_Object_entries m : NoDup (Object_entries m).*1.
Proof.
  rewrite Object_entries_Permutation. apply NoDup_fst_map_to_list.
Qed.

Lemma cell_get_spec c s r s' :
  cell_get c s = (r, s') ->
  (r = Raise ReferenceError ∧ s' = s ∧ cells s !! c = None)
  ∨ (∃ rec, cells s !! c = Some rec ∧ r = Ok (value rec) ∧
       match current_id s with
       | Some (id, comp) =>
           s' = with_cells
                  (<[c := MkCell (value rec) (<[id := comp]> (subscribers rec))]>
                     (cells s)) s
       | None => s' = s
       end).
Proof.
  unfold cell_get. destruct (cells s !! c) as [rec|] eqn:Hc.
  - destruct (current_id s) as [[id comp]|]; intros [= <- <-]; right; eauto.
  - intros [= <- <-]. by left.
Qed.

(** [RenderDOM(node())] is the call followed by the rendering of its
    result. *)
Lemma render_ret_invoke body s :
  render_ret body s
  = match invoke body s with
    | (Ok v, s1) => RenderDOM v s1
    | (Raise e, s1) => (Raise e, s1)
    end.
Proof.
  revert s. induction body as [v|c k IH|e0]; intros s; simpl; try done.
  destruct (cell_get c s) as [[d|e] s1]; [apply IH|done].
Qed.

Lemma RenderDOM_element spec rest s :
  RenderDOM (VArr (VData (DStr spec) :: rest)) s
  = match match_tag spec with
    | None => (Raise TypeError, s)
    | Some tag =>
        match decorate spec tag (split_attrs rest).1 with
        | Ok el => render_children RenderDOM (split_attrs rest).2 el s
        | Raise e => (Raise e, s)
        end
    end.
Proof.
  simpl. destruct (match_tag spec) as [tag|]; [|done].
  destruct rest as [|second rest']; [done|].
  unfold split_attrs. by destruct (as_attrs second).
Qed.

Lemma RenderDOM_array_cases items s :
  (∃ spec rest, items = VData (DStr spec) :: rest)
  ∨ RenderDOM (VArr items) s = (Raise TypeError, s).
Proof.
  destruct items as [|[[]| | |] rest]; eauto.
Qed.

Lemma split_attrs_Forall (P : JsVal -> Prop) rest :
  Forall P rest -> Forall P (split_attrs rest).2.
Proof.
  intros H. destruct rest as [|second rest']; [done|].
  unfold split_attrs. destruct (as_attrs second); [|done].
  by inversion H.
Qed.

(** ** The frame of a rendering *)

Lemma render_frame_refl s b : render_frame s b s.
Proof.
  split; try done.
  - exists []. by repeat split.
  - by left.
Qed.

Lemma render_frame_trans s s1 s2 b :
  render_frame s true s1 -> render_frame s1 b s2 -> render_frame s b s2.
Proof.
  intros [Hid (e1 & Hst1 & _ & He1) Hdoc Hcon Hval Hsub]
         [Hid' (e2 & Hst2 & Hb2 & He2) Hdoc' Hcon' Hval' Hsub'].
  rewrite (He1 eq_refl) in Hst1; simpl in Hst1.
  split.
  - lia.
  - exists e2. rewrite Hst2, Hst1. repeat split; [|done].
    eapply Forall_impl; [exact Hb2|]. simpl; intros; lia.
  - congruence.
  - congruence.
  - intros c. by rewrite Hval', Hval.
  - intros c k. destruct (Hsub' c k) as [Heq|(f & Hf & Hk)].
    + rewrite Heq. destruct (Hsub c k) as [Heq'|(f & Hf & Hk)]; [by left|].
      right. exists f. split; [done|]. destruct Hk; [left; lia|by right].
    + right. exists f. split; [done|]. destruct Hk as [Hk|Hk]; [left; lia|].
      right. unfold current_id in *. by rewrite <- Hst1.
Qed.

Lemma cell_get_frame c s r s' :
  cell_get c s = (r, s') -> render_frame s true s'.
Proof.
  intros H. apply cell_get_spec in H as [(_ & -> & _)|(rec & Hc & _ & H)].
  { apply render_frame_refl. }
  destruct (current_id s) as [[id comp]|] eqn:Hcur; subst s';
    [|apply render_frame_refl].
  split; simpl; try done.
  - exists []. by repeat split.
  - intros c'. rewrite value_with_cells_insert.
    destruct (decide (c' = c)) as [->|]; [by rewrite Hc|done].
  - intros c' k. rewrite subs_with_cells_insert.
    destruct (decide (c' = c)) as [->|]; [|by left].
    destruct (decide (k = id)) as [->|Hne].
    + right. exists comp. rewrite lookup_insert_eq. split; [done|by right].
    + left. rewrite lookup_insert_ne by done. unfold subs. by rewrite Hc.
Qed.

Lemma invoke_frame body s r s' :
  invoke body s = (r, s') -> render_frame s true s'.
Proof.
  revert s. induction body as [v|c k IH|d]; intros s; simpl.
  - intros [= <- <-]. apply render_frame_refl.
  - destruct (cell_get c s) as [[d|e] s1] eqn:Hget.
    + intros H. eapply render_frame_trans; [by eapply cell_get_frame|by eapply IH].
    + intros [= <- <-]. by eapply cell_get_frame.
  - intros [= <- <-]. apply render_frame_refl.
Qed.

Lemma render_children_frame l el s r s' :
  Forall (λ v, ∀ s r s', RenderDOM v s = (r, s') -> render_frame s (is_ok r) s') l ->
  render_children RenderDOM l el s = (r, s') -> render_frame s (is_ok r) s'.
Proof.
  intros Hall. revert el s. induction Hall as [|child rest Hc _ IH]; intros el s; simpl.
  - intros [= <- <-]. apply render_frame_refl.
  - destruct (RenderDOM child s) as [[[cnode|]|e] s1] eqn:Hr.
    + intros H. eapply render_frame_trans; [exact (Hc _ _ _ Hr)|by eapply IH].
    + intros H. eapply render_frame_trans; [exact (Hc _ _ _ Hr)|by eapply IH].
    + intros [= <- <-]. exact (Hc _ _ _ Hr).
Qed.

Lemma render_frame_context id f s b s2 :
  render_frame (push (id, f) (with_id (S id) s)) b s2 ->
  id = _id s ->
  render_frame s false s2
  ∧ (b = true -> render_frame s true (pop s2)
                 ∧ _id_stack s2 = (id, f) :: _id_stack s).
Proof.
  intros [Hid (extra & Hst & Hb & He) Hdoc Hcon Hval Hsub] ->. simpl in *.
  assert (Hsub' : ∀ c k,
    subs c s2 !! k = subs c s !! k
    ∨ ∃ g, subs c s2 !! k = Some g
        ∧ (_id s ≤ k < _id s2 ∨ current_id s = Some (k, g))).
  { intros c k. destruct (Hsub c k) as [Heq|(g & Hg & Hk)]; [by left|].
    right. exists g. split; [done|]. left.
    destruct Hk as [Hk|Hk]; [lia|].
    unfold current_id in Hk; simpl in Hk. simplify_eq. lia. }
  split; [|intros ->; split].
  - split; simpl; try done; [lia|].
    exists (extra ++ [(_id s, f)]). rewrite Hst, <- app_assoc. repeat split; [|done].
    apply Forall_app. split.
    + eapply Forall_impl; [exact Hb|]. simpl; intros; lia.
    + repeat constructor; simpl; lia.
  - rewrite (He eq_refl) in Hst; simpl in Hst.
    split; simpl; try done; [lia|].
    exists []. rewrite Hst. by repeat split.
  - by rewrite (He eq_refl) in Hst.
Qed.

(** The frame of [RenderDOM] and of [RenderDOM(node())]. *)
Lemma RenderDOM_render_ret_frame :
  (∀ node s r s', RenderDOM node s = (r, s') -> render_frame s (is_ok r) s')
  ∧ (∀ body s r s', render_ret body s = (r, s') -> render_frame s (is_ok r) s').
Proof.
  assert (H : ∀ node,
    (λ node, ∀ s r s', RenderDOM node s = (r, s') -> render_frame s (is_ok r) s') node).
  2: { split; [exact H|]. intros body s r s'. rewrite render_ret_invoke.
       destruct (invoke body s) as [[v|e] s1] eqn:Hi.
       - intros Hr. eapply render_frame_trans; [by eapply invoke_frame|by eapply H].
       - intros [= <- <-]. simpl.
         destruct (invoke_frame _ _ _ _ Hi). split; try done.
         destruct rf_stack0 as (ex & ? & ? & Hex). exists ex.
         by rewrite (Hex eq_refl) in *. }
  apply (JsVal_Comp_ind
    (λ node, ∀ s r s', RenderDOM node s = (r, s') -> render_frame s (is_ok r) s')
    (λ body, ∀ s r s', render_ret body s = (r, s') -> render_frame s (is_ok r) s')).
  - intros d s r s'. simpl.
    destruct (truthy d); [destruct (createTextNode d)|]; intros [= <- <-];
      apply render_frame_refl.
  - intros body IH s r s'. simpl.
    destruct (render_ret (body []) _) as [[dom|e] s2] eqn:Hr.
    + apply IH in Hr. simpl in Hr.
      apply render_frame_context in Hr as [Hraise Hok]; [|done].
      destruct (stamp (_id s) dom).
      * intros [= <- <-]. by apply Hok.
      * by intros [= <- <-].
    + apply IH in Hr. simpl in Hr.
      apply render_frame_context in Hr as [Hraise _]; [|done].
      by intros [= <- <-].
  - intros items Hall s r s'.
    destruct (RenderDOM_array_cases items s) as [(spec & rest & ->)| ->].
    + rewrite RenderDOM_element. destruct (match_tag spec) as [tag|].
      * destruct (decorate spec tag _) as [el|e].
        -- apply render_children_frame, split_attrs_Forall. by inversion Hall.
        -- intros [= <- <-]. apply render_frame_refl.
      * intros [= <- <-]. apply render_frame_refl.
    + intros [= <- <-]. apply render_frame_refl.
  - intros entries s r s'. simpl.
    destruct (object_text _); intros [= <- <-]; apply render_frame_refl.
  - intros v IH s r s'. simpl. apply IH.
  - intros c k IH s r s'. simpl.
    destruct (cell_get c s) as [[d|e] s1] eqn:Hget.
    + intros H. eapply render_frame_trans; [by eapply cell_get_frame|by eapply IH].
    + intros [= <- <-]. simpl. apply cell_get_frame in Hget.
      destruct Hget. split; try done.
      destruct rf_stack0 as (ex & ? & ? & Hex). exists ex.
      by rewrite (Hex eq_refl) in *.
  - intros d s r s'. simpl. intros [= <- <-]. apply render_frame_refl.
Qed.

Lemma RenderDOM_frame node s r s' :
  RenderDOM node s = (r, s') -> render_frame s (is_ok r) s'.
Proof. apply RenderDOM_render_ret_frame. Qed.

Lemma render_ret_frame body s r s' :
  render_ret body s = (r, s') -> render_frame s (is_ok r) s'.
Proof. apply RenderDOM_render_ret_frame. Qed.

(** ** The frame of a write *)

Lemma subs_console_log c l s : subs c (console_log l s) = subs c s.
Proof. done. Qed.

Lemma subs_with_document c d s : subs c (with_document d s) = subs c s.
Proof. done. Qed.

Lemma subs_delete_subscriber c c' id s :
  subs c' (delete_subscriber c id s)
  = if decide (c' = c) then delete id (subs c s) else subs c' s.
Proof.
  unfold delete_subscriber. destruct (cells s !! c) as [r|] eqn:Hc.
  - rewrite subs_with_cells_insert. destruct (decide (c' = c)); [|done].
    unfold subs. by rewrite Hc.
  - destruct (decide (c' = c)) as [->|]; [|done].
    unfold subs. rewrite Hc. by rewrite delete_empty.
Qed.

Lemma value_delete_subscriber c c' id s :
  value <$> cells (delete_subscriber c id s) !! c' = value <$> cells s !! c'.
Proof.
  unfold delete_subscriber. destruct (cells s !! c) as [r|] eqn:Hc; [|done].
  simpl. rewrite value_with_cells_insert.
  destruct (decide (c' = c)) as [->|]; [by rewrite Hc|done].
Qed.

Lemma write_frame_done c s : write_frame c [] s true s [].
Proof.
  split; simpl.
  - done.
  - exists []. by split.
  - by rewrite app_nil_r.
  - done.
  - done.
  - done.
  - by left.
  - intros k Hk. set_solver.
Qed.

(** A visit that raised. *)
Lemma write_frame_raise c id node rest s s2 :
  render_frame (console_log (LogVisit id node) s) false s2 ->
  write_frame c ((id, node) :: rest) s false s2 [LogVisit id node].
Proof.
  intros [Hid (extra & Hst & _ & _) Hdoc Hcon Hval Hsub]. simpl in *.
  split; simpl.
  - done.
  - exists extra. by split.
  - done.
  - split; [|done]. by exists rest.
  - set_solver.
  - done.
  - intros c' k. destruct (Hsub c' k) as [?|?]; [by left|by right; right].
  - intros k Hk. set_solver.
Qed.

(** A visit that rendered, before the rest of the loop. *)
Lemma write_frame_render c id node rest s s2 d b s' lines :
  render_frame (console_log (LogVisit id node) s) true s2 ->
  write_frame c rest (with_document d s2) b s' lines ->
  write_frame c ((id, node) :: rest) s b s' (LogVisit id node :: lines).
Proof.
  intros [Hid (e1 & Hst & _ & He1) Hdoc Hcon Hval Hsub]
         [Hid' (e2 & Hst' & He2) Hcon' [Hpre Hall] Hfs Hval' Hsub' Hfr].
  rewrite (He1 eq_refl) in Hst. simpl in *.
  assert (Hcur : current_id (with_document d s2) = current_id s).
  { unfold current_id; simpl. by rewrite Hst. }
  assert (Hnew : ∀ c' k f,
    subs c' s' !! k = Some f ->
    (_id s2 ≤ k < _id s' ∨ current_id (with_document d s2) = Some (k, f)) ->
    ∃ g, subs c' s' !! k = Some g
      ∧ (_id s ≤ k < _id s' ∨ current_id s = Some (k, g))).
  { intros c' k f Hf [Hk|Hk]; exists f; (split; [done|]);
      [left; lia|right; by rewrite <- Hcur]. }
  split; simpl.
  - lia.
  - exists e2. by rewrite Hst', Hst.
  - rewrite Hcon', Hcon. by rewrite <- app_assoc.
  - split; [by apply prefix_cons|]. intros Hb. by rewrite (Hall Hb).
  - by apply list_subseteq_cons.
  - intros c'. by rewrite Hval', Hval.
  - intros c' k. destruct (Hsub' c' k) as [Heq|[Hdel|(f & Hf & Hk)]].
    + rewrite Heq, subs_with_document.
      destruct (Hsub c' k) as [Heq'|(f & Hf & Hk)]; [by left|].
      right; right. exists f. split; [done|].
      destruct Hk; [left; lia|by right].
    + by right; left.
    + right; right. by eapply Hnew.
  - intros k Hk. destruct (Hfr k Hk) as [?|(f & Hf & Hk')]; [by left|].
    right. by eapply Hnew.
Qed.

(** A visit that freed its entry, before the rest of the loop. *)
Lemma write_frame_free c id node rest s b s' lines :
  write_frame c rest
    (delete_subscriber c id
       (console_log (LogFree id) (console_log (LogVisit id node) s)))
    b s' lines ->
  write_frame c ((id, node) :: rest) s b s'
    (LogVisit id node :: LogFree id :: lines).
Proof.
  set (s3 := delete_subscriber _ _ _).
  assert (H3 : _id s3 = _id s ∧ _id_stack s3 = _id_stack s
               ∧ console s3 = (console s ++ [LogVisit id node]) ++ [LogFree id]).
  { unfold s3, delete_subscriber. simpl. by destruct (cells s !! c). }
  destruct H3 as (Hid3 & Hst3 & Hcon3).
  intros [Hid' (e2 & Hst' & He2) Hcon' [Hpre Hall] Hfs Hval' Hsub' Hfr].
  assert (Hcur : current_id s3 = current_id s).
  { unfold current_id. by rewrite Hst3. }
  split; simpl.
  - lia.
  - exists e2. by rewrite Hst', Hst3.
  - rewrite Hcon', Hcon3. by rewrite <- !app_assoc.
  - split; [by apply prefix_cons|]. intros Hb. by rewrite (Hall Hb).
  - set_solver.
  - intros c'. rewrite Hval'. unfold s3. by rewrite value_delete_subscriber.
  - intros c' k. rewrite Hid3, Hcur in Hsub'.
    destruct (Hsub' c' k) as [Heq|[(-> & Hn & Hk)|Hnew]].
    + unfold s3 in Heq. rewrite subs_delete_subscriber in Heq.
      destruct (decide (c' = c)) as [->|]; [|by left].
      destruct (decide (k = id)) as [->|Hne].
      * rewrite lookup_delete_eq in Heq. right; left.
        repeat split; [done|]. set_solver.
      * rewrite lookup_delete_ne in Heq by done. by left.
    + right; left. repeat split; [done|]. set_solver.
    + by right; right.
  - intros k Hk. rewrite Hid3, Hcur in Hfr, Hsub'.
    apply elem_of_cons in Hk as [->|Hk]; [|by apply Hfr].
    destruct (Hsub' c id) as [Heq|[(_ & Hn & _)|Hnew]]; [|by left|by right].
    left. rewrite Heq. unfold s3. rewrite subs_delete_subscriber.
    rewrite decide_True by done. by rewrite lookup_delete_eq.
Qed.

Lemma set_loop_frame c entries s r s' :
  set_loop c entries s = (r, s') ->
  ∃ lines, write_frame c entries s (is_ok r) s' lines.
Proof.
  revert s. induction entries as [|[id node] rest IH]; intros s; simpl.
  - intros [= <- <-]. exists []. apply write_frame_done.
  - destruct (querySelector _ _) as [el|].
    + destruct (render_ret _ _) as [[dom|e] s2] eqn:Hr;
        apply render_ret_frame in Hr; simpl in Hr.
      * destruct (stamp id dom) as [dom'|e].
        -- intros H. apply IH in H as [lines H]. eexists.
           by eapply write_frame_render.
        -- intros [= <- <-]. eexists. apply write_frame_raise.
           destruct Hr. split; try done.
           destruct rf_stack0 as (ex & ? & ? & _). exists ex. by repeat split.
      * intros [= <- <-]. eexists. by apply write_frame_raise.
    + intros H. apply IH in H as [lines H]. eexists.
      by apply write_frame_free.
Qed.

(** ** Lookup and replacement in the document *)

Lemma find_in_nonempty Q l p : find_in Q l = Some p -> p ≠ [].
Proof.
  revert p. induction l as [|n r IH]; intros p; simpl; [done|].
  destruct (Q n); [by intros [= <-]|].
  destruct (find_in Q r) as [q|]; [|done]. simpl. intros [= <-].
  specialize (IH q eq_refl). by destruct q.
Qed.

Lemma replaceWith_cons_S i q new n r :
  replaceWith (S i :: q) new (n :: r) = n :: replaceWith (i :: q) new r.
Proof.
  destruct q as [|j q]; [done|]. simpl.
  destruct (r !! i) as [[t a pr c ch|d]|]; done.
Qed.

Lemma query_node_Element u t a pr c ch :
  query_node u (Element t a pr c ch)
  = if bool_decide (assoc_get "data-uid" a = Some u) then Some []
    else find_in (query_node u) ch.
Proof. done. Qed.

Lemma find_in_cons Q n r :
  find_in Q (n :: r)
  = match Q n with Some p => Some (0 :: p) | None => bump <$> find_in Q r end.
Proof. done. Qed.

Lemma node_at_cons_S i q n r : node_at (S i :: q) (n :: r) = node_at (i :: q) r.
Proof. by destruct q. Qed.

(** The node put in place by [replaceWith] is the one the same selector
    finds afterwards, at the same place. *)
Lemma querySelector_replaceWith u new doc p :
  getAttribute "data-uid" new = Some u ->
  querySelector u doc = Some p ->
  querySelector u (replaceWith p new doc) = Some p
  ∧ node_at p (replaceWith p new doc) = Some new.
Proof.
  intros Hnew. unfold querySelector.
  assert (Hq : query_node u new = Some []).
  { destruct new as [t a pr c ch|d]; [|done]. simpl in *.
    by rewrite bool_decide_true. }
  set (F := λ l : list DomNode, ∀ p,
    find_in (query_node u) l = Some p ->
    find_in (query_node u) (replaceWith p new l) = Some p
    ∧ node_at p (replaceWith p new l) = Some new).
  assert (Hforest : ∀ l, Forall (λ n, F (children_of n)) l -> F l).
  { intros l Hall. induction Hall as [|n r Hn _ IH]; intros q; simpl; [done|].
    destruct (query_node u n) as [q0|] eqn:Hn0.
    - intros [= <-]. destruct q0 as [|j q0].
      + simpl. by rewrite Hq.
      + destruct n as [t a pr c ch|d]; [|done]. simpl in Hn0, Hn.
        destruct (bool_decide _) eqn:Hroot; [done|].
        destruct (Hn _ Hn0) as [Hf Hat].
        change (replaceWith (0 :: j :: q0) new (Element t a pr c ch :: r))
          with (Element t a pr c (replaceWith (j :: q0) new ch) :: r).
        split.
        * by rewrite find_in_cons, query_node_Element, Hroot, Hf.
        * exact Hat.
    - destruct (find_in (query_node u) r) as [q'|] eqn:Hr; [|done].
      simpl. intros [= <-].
      pose proof (find_in_nonempty _ _ _ Hr) as Hne.
      destruct q' as [|i q']; [done|]. cbn [bump].
      rewrite replaceWith_cons_S, node_at_cons_S.
      destruct (IH _ Hr) as [Hf Hat]. split; [|exact Hat].
      by rewrite find_in_cons, Hn0, Hf. }
  assert (Hnode : ∀ n, F (children_of n)).
  { apply (DomNode_forest_ind (λ n, F (children_of n))).
    - intros t a pr c ch Hall. simpl. by apply Hforest.
    - intros d q. done. }
  apply Hforest. apply Forall_forall. intros n _. apply Hnode.
Qed.

(** ** Calls outside and inside a context *)

Lemma cell_get_globals c s r s' :
  cell_get c s = (r, s') ->
  _id s' = _id s ∧ _id_stack s' = _id_stack s ∧ document s' = document s
  ∧ console s' = console s.
Proof.
  intros H. apply cell_get_spec in H as [(_ & -> & _)|(rec & _ & _ & H)]; [done|].
  destruct (current_id s) as [[id comp]|]; by subst s'.
Qed.

Lemma invoke_globals body s r s' :
  invoke body s = (r, s') ->
  _id s' = _id s ∧ _id_stack s' = _id_stack s ∧ document s' = document s
  ∧ console s' = console s.
Proof.
  revert s. induction body as [v|c k IH|d]; intros s; simpl.
  - by intros [= <- <-].
  - destruct (cell_get c s) as [[d|e] s1] eqn:Hget;
      apply cell_get_globals in Hget as (H1 & H2 & H3 & H4).
    + intros H. apply IH in H as (? & ? & ? & ?). repeat split; congruence.
    + by intros [= <- <-].
  - by intros [= <- <-].
Qed.


(** ** The loop of a write *)

Lemma set_loop_app c pre post s :
  set_loop c (pre ++ post) s
  = match set_loop c pre s with
    | (Ok _, s1) => set_loop c post s1
    | (Raise e, s1) => (Raise e, s1)
    end.
Proof.
  revert s. induction pre as [|[id node] pre IH]; intros s; simpl; [done|].
  destruct (querySelector _ _) as [el|]; [|apply IH].
  destruct (render_ret _ _) as [[dom|e] s2]; [|done].
  destruct (stamp id dom); [apply IH|done].
Qed.

(** Entries known before the write, under identifiers the write did not
    free, are as they were. *)
Lemma write_frame_kept c entries s b s' lines c' k :
  write_frame c entries s b s' lines ->
  _id_stack s = [] -> k < _id s -> k ∉ freed lines ->
  subs c' s' !! k = subs c' s !! k.
Proof.
  intros [_ _ _ _ _ _ Hsub _] Hst Hk Hnf.
  destruct (Hsub c' k) as [Heq|[(_ & _ & Hf)|(f & _ & [Hfresh|Hcur])]];
    [done|done|lia|].
  unfold current_id in Hcur. by rewrite Hst in Hcur.
Qed.

Lemma write_frame_gone c entries s b s' lines k :
  write_frame c entries s b s' lines ->
  _id_stack s = [] -> k < _id s -> k ∈ freed lines ->
  subs c s' !! k = None.
Proof.
  intros [_ _ _ _ _ _ _ Hfr] Hst Hk Hf.
  destruct (Hfr k Hf) as [Hn|(f & _ & [Hfresh|Hcur])]; [done|lia|].
  unfold current_id in Hcur. by rewrite Hst in Hcur.
Qed.

Lemma write_frame_unvisited c entries s b s' lines c' k :
  write_frame c entries s b s' lines ->
  _id_stack s = [] -> k < _id s -> k ∉ entries.*1 ->
  subs c' s' !! k = subs c' s !! k.
Proof.
  intros Hw Hst Hk Hne. eapply write_frame_kept; [done..|].
  intros Hf. apply Hne. by apply (wf_freed_sub _ _ _ _ _ _ Hw).
Qed.

Lemma set_unfold c x s :
  set c x s
  = match cells s !! c with
    | Some r => set_loop c (Object_entries (subs c s)) (store c x s)
    | None => (Raise ReferenceError, s)
    end.
Proof.
  unfold set, store, subs. by destruct (cells s !! c).
Qed.

Lemma subs_store c x c' s : subs c' (store c x s) = subs c' s.
Proof.
  unfold store. destruct (cells s !! c) as [r|] eqn:Hc; [|done].
  rewrite subs_with_cells_insert. destruct (decide (c' = c)) as [->|]; [|done].
  unfold subs. by rewrite Hc.
Qed.

Lemma store_globals c x s :
  _id (store c x s) = _id s ∧ _id_stack (store c x s) = _id_stack s
  ∧ document (store c x s) = document s ∧ console (store c x s) = console s.
Proof. unfold store. by destruct (cells s !! c). Qed.

(** What [set] may change in the subscriber tables. *)
Lemma set_frame c x s r s' :
  set c x s = (r, s') ->
  ∃ lines, console s' = console s ++ lines
    ∧ _id s ≤ _id s'
    ∧ freed lines ⊆ (Object_entries (subs c s)).*1
    ∧ (is_ok r = true -> visits lines = Object_entries (subs c s))
    ∧ ∀ c' k,
        subs c' s' !! k = subs c' s !! k
        ∨ (c' = c ∧ subs c s' !! k = None ∧ k ∈ freed lines)
        ∨ ∃ f, subs c' s' !! k = Some f
            ∧ (_id s ≤ k < _id s' ∨ current_id s = Some (k, f)).
Proof.
  rewrite set_unfold. destruct (cells s !! c) as [rec|] eqn:Hc.
  - intros H. apply set_loop_frame in H as [lines H]. exists lines.
    destruct (store_globals c x s) as (Hid & Hst & _ & Hcon).
    destruct H as [Hid' _ Hcon' [_ Hvis] Hfs _ Hsub _].
    rewrite Hid in *. rewrite Hcon in Hcon'.
    split_and!; [done..|].
    intros c' k. specialize (Hsub c' k). rewrite !subs_store in Hsub.
    unfold current_id in *. by rewrite Hst in Hsub.
  - intros [= <- <-]. exists []. rewrite app_nil_r.
    split_and!; [done|done|apply list_subseteq_nil|done|by left].
Qed.

(** The operations made from the top level keep the tables within the
    identifiers allocated so far. *)
Lemma initial_allocated : subs_allocated initial.
Proof. intros c k [f Hf]. unfold subs in Hf. simpl in Hf. done. Qed.

Lemma state_allocated c x s : subs_allocated s -> subs_allocated (state c x s).
Proof.
  intros H c' k. unfold state. rewrite subs_with_cells_insert.
  destruct (decide (c' = c)); [|apply H]. intros [f Hf]. done.
Qed.

Lemma RenderDOM_allocated node s r s' :
  RenderDOM node s = (r, s') -> _id_stack s = [] ->
  subs_allocated s -> subs_allocated s'.
Proof.
  intros Hr Hst H c k [f Hf]. apply RenderDOM_frame in Hr.
  pose proof (rf_id _ _ _ Hr) as Hid.
  destruct (rf_subs _ _ _ Hr c k) as [Heq|(g & _ & [Hfresh|Hcur])]; [|lia|].
  - rewrite Heq in Hf. specialize (H c k (ex_intro _ f Hf)). lia.
  - unfold current_id in Hcur. by rewrite Hst in Hcur.
Qed.

Lemma mount_allocated node s r s' :
  mount node s = (r, s') -> _id_stack s = [] ->
  subs_allocated s -> subs_allocated s'.
Proof.
  unfold mount. destruct (RenderDOM node s) as [[[dom|]|e] s1] eqn:Hr;
    intros [= <- <-] Hst H c k Hk;
    exact (RenderDOM_allocated _ _ _ _ Hr Hst H c k Hk).
Qed.

Lemma set_allocated c x s r s' :
  set c x s = (r, s') -> _id_stack s = [] ->
  subs_allocated s -> subs_allocated s'.
Proof.
  intros Hset Hst H c' k [f Hf].
  apply set_frame in Hset as (lines & _ & Hid & _ & _ & Hsub).
  destruct (Hsub c' k) as [Heq|[(-> & Hn & _)|(g & _ & [Hfresh|Hcur])]];
    [|congruence|lia|].
  - rewrite Heq in Hf. specialize (H c' k (ex_intro _ f Hf)). lia.
  - unfold current_id in Hcur. by rewrite Hst in Hcur.
Qed.

Lemma subs_allocated_entries c s :
  subs_allocated s -> Forall (λ e, e.1 < _id s) (Object_entries (subs c s)).
Proof.
  intros H. apply Forall_forall. intros [k f] Hin.
  apply elem_of_Object_entries in Hin. apply (H c k). by exists f.
Qed.

Lemma new_lines_app s s' lines :
  console s' = console s ++ lines -> new_lines s s' = lines.
Proof. unfold new_lines. intros ->. by rewrite drop_app_length. Qed.

Lemma render_frame_kept s b s' c k :
  render_frame s b s' -> _id_stack s = [] -> k < _id s ->
  subs c s' !! k = subs c s !! k.
Proof.
  intros [_ _ _ _ _ Hsub] Hst Hk.
  destruct (Hsub c k) as [Heq|(f & _ & [Hfresh|Hcur])]; [done|lia|].
  unfold current_id in Hcur. by rewrite Hst in Hcur.
Qed.

Lemma write_frame_stack c entries s s' lines :
  write_frame c entries s true s' lines -> _id_stack s' = _id_stack s.
Proof.
  intros [_ (extra & Hst & He) _ _ _ _ _ _]. by rewrite Hst, (He eq_refl).
Qed.

(** ** The DOM operations on an element *)

Lemma setAttribute_data_uid v t a p c ch :
  setAttribute "data-uid" v (Element t a p c ch)
  = Ok (Element t (assoc_set "data-uid" v a) p c ch).
Proof. unfold setAttribute. by rewrite valid_data_uid. Qed.

Lemma setAttribute_id v t a p c ch :
  setAttribute "id" v (Element t a p c ch)
  = Ok (Element t (assoc_set "id" v a) p c ch).
Proof. unfold setAttribute. by rewrite valid_id. Qed.

Lemma getAttribute_Element k t a p c ch :
  getAttribute k (Element t a p c ch) = assoc_get (lower k) a.
Proof. reflexivity. Qed.

Lemma stamp_Ok id dom dom' :
  stamp id dom = Ok dom' ->
  ∃ t a p c ch, dom = Some (Element t a p c ch)
    ∧ dom' = Element t (assoc_set "data-uid" (pretty id) a) p c ch.
Proof.
  destruct dom as [[t a p c ch|d]|]; simpl; [|done..].
  rewrite valid_data_uid. intros [= <-]. by eexists _, _, _, _, _.
Qed.

Lemma stamp_Element id t a p c ch :
  stamp id (Some (Element t a p c ch))
  = Ok (Element t (assoc_set "data-uid" (pretty id) a) p c ch).
Proof. apply setAttribute_data_uid. Qed.

Lemma stamp_Raise id dom e :
  stamp id dom = Raise e ->
  e = TypeError ∧ (dom = None ∨ ∃ d, dom = Some (TextNode d)).
Proof.
  destruct dom as [[t a p c ch|d]|]; simpl.
  - by rewrite valid_data_uid.
  - intros [= <-]. split; [done|]. right. by exists d.
  - intros [= <-]. split; [done|]. by left.
Qed.

Lemma assoc_get_set_eq {V} k (v : V) l : assoc_get k (assoc_set k v l) = Some v.
Proof.
  induction l as [|[k' v'] l IH]; simpl.
  - by rewrite String.eqb_refl.
  - destruct (String.eqb k' k) eqn:Hk; simpl.
    + by rewrite String.eqb_refl.
    + by rewrite Hk.
Qed.

Lemma assoc_get_set_ne {V} k k' (v : V) l :
  k ≠ k' -> assoc_get k' (assoc_set k v l) = assoc_get k' l.
Proof.
  intros Hne. induction l as [|[k0 v0] l IH]; simpl.
  - by rewrite (proj2 (String.eqb_neq k k')).
  - destruct (String.eqb k0 k) eqn:Hk; simpl.
    + apply String.eqb_eq in Hk as ->.
      by rewrite !(proj2 (String.eqb_neq k k')).
    + destruct (String.eqb k0 k'); [done|apply IH].
Qed.

(** ** Stack discipline *)

(** C1 (as amended): when [RenderDOM] returns normally the context stack
    is the one it was called with.  There is no pop on an exceptional
    exit: when the rendering of a component raises, the context pushed
    for it is still on the stack, above the stack [RenderDOM] was called
    with and under the contexts of the nested components that were
    entered and not left; when the rendering of anything else raises, the
    stack it was called with is still there under such contexts. *)
Theorem RenderDOM_stack_balanced_on_return node s r s' :
  RenderDOM node s = (r, s') ->
  match r with
  | Ok _ => _id_stack s' = _id_stack s
  | Raise _ => ∃ extra, _id_stack s' = extra ++ entered node s ++ _id_stack s
  end.
Proof.
  intros H. destruct r as [dom|e].
  - apply RenderDOM_frame in H as [_ (extra & Hst & _ & He) _ _ _ _].
    by rewrite Hst, (He eq_refl).
  - destruct node as [d|[body]|items|entries];
      try (apply RenderDOM_frame in H as [_ (extra & Hst & _) _ _ _ _];
           by exists extra).
    simpl in H.
    destruct (render_ret (body []) _) as [[dom|e0] s2] eqn:Hr.
    + destruct (stamp (_id s) dom); [done|]. injection H as _ <-.
      apply render_ret_frame in Hr as [_ (extra & Hst & _) _ _ _ _].
      by exists extra.
    + injection H as _ <-.
      apply render_ret_frame in Hr as [_ (extra & Hst & _) _ _ _ _].
      by exists extra.
Qed.

(** C10: a component whose call returns a falsy description makes
    [RenderDOM] raise a [TypeError] at the stamping of the missing node,
    with the pushed context still on the stack. *)
Theorem RenderDOM_falsy_component_raises f s d s1 :
  call f (push (_id s, f) (with_id (S (_id s)) s)) = (Ok (VData d), s1) ->
  truthy d = false ->
  RenderDOM (VFun f) s = (Raise TypeError, s1)
  ∧ _id_stack s1 = (_id s, f) :: _id_stack s
  ∧ _id_stack s1 ≠ [].
Proof.
  intros Hcall Hd. destruct f as [body]. unfold call in Hcall; simpl in Hcall.
  assert (Hst : _id_stack s1 = (_id s, Fn body) :: _id_stack s).
  { apply invoke_frame in Hcall as [_ (extra & Hst & _ & He) _ _ _ _].
    by rewrite Hst, (He eq_refl). }
  split; [|by rewrite Hst].
  simpl. rewrite render_ret_invoke, Hcall. simpl. by rewrite Hd.
Qed.

(** ** Primitive input *)

(** C4 (as amended): the falsy values, [undefined], [null], [false], [0],
    [NaN], [0n] and the empty string, render to nothing; every other
    boolean, string, BigInt and integer of the safe range renders to a
    text node that carries its string conversion; a symbol, which has no
    string conversion, makes [RenderDOM] raise a [TypeError], and so does
    a plain object whose own [toString] is not a function, the other
    plain objects rendering to the text [[object Object]]. *)
Theorem RenderDOM_data d s :
  RenderDOM (VData d) s
  = match d with
    | DUndefined | DNull | DNaN | DBool false | DStr "" => (Ok None, s)
    | DBool true => (Ok (Some (TextNode "true")), s)
    | DStr t => (Ok (Some (TextNode t)), s)
    | DNumber n =>
        if (int_val n =? 0)%Z then (Ok None, s)
        else (Ok (Some (TextNode (pretty (int_val n)))), s)
    | DBigInt z =>
        if (z =? 0)%Z then (Ok None, s)
        else (Ok (Some (TextNode (pretty z))), s)
    | DSymbol _ => (Raise TypeError, s)
    | DObj fields =>
        if bool_decide ("toString" ∈ fields.*1) then (Raise TypeError, s)
        else (Ok (Some (TextNode "[object Object]")), s)
    end.
Proof.
  destruct d as [| |[]|n| |z|[|a t]|sym|fields]; try reflexivity.
  - simpl. by destruct (int_val n =? 0)%Z.
  - simpl. by destruct (z =? 0)%Z.
  - simpl. unfold createTextNode, to_string, object_text.
    by destruct (bool_decide _).
Qed.

(** ** Component functions and arguments *)

(** ** Registration of a reader *)

Lemma filter_key_absent (l : list (nat * Func)) k :
  k ∉ l.*1 -> filter (λ e, e.1 = k) l = [].
Proof.
  induction l as [|[k' f'] l IH]; [done|]. simpl. intros Hk.
  apply not_elem_of_cons in Hk as [Hne Hk].
  rewrite filter_cons_False by (simpl; congruence). by apply IH.
Qed.

Lemma filter_key_length (l : list (nat * Func)) k f :
  NoDup l.*1 -> (k, f) ∈ l -> length (filter (λ e, e.1 = k) l) = 1.
Proof.
  induction l as [|[k' f'] l IH]; simpl; intros Hnd Hin.
  - by apply elem_of_nil in Hin.
  - apply NoDup_cons in Hnd as [Hk' Hnd].
    apply elem_of_cons in Hin as [[= <- <-]|Hin].
    + rewrite filter_cons_True by done. simpl.
      by rewrite filter_key_absent.
    + rewrite filter_cons_False; [by apply IH|].
      simpl. intros ->. apply Hk', list_elem_of_fmap. by exists (k, f).
Qed.

Lemma invoke_read_times n c v s id comp r :
  current_id s = Some (id, comp) -> cells s !! c = Some r ->
  ∃ s', invoke (read_times (S n) c v) s = (Ok v, s')
    ∧ subs c s' = <[id := comp]> (subs c s)
    ∧ current_id s' = Some (id, comp).
Proof.
  revert s r. induction n as [|n IH]; intros s r Hcur Hc.
  - simpl. unfold cell_get. rewrite Hc, Hcur. eexists. split; [done|].
    rewrite subs_with_cells_insert, decide_True by done.
    unfold subs. by rewrite Hc.
  - change (invoke (read_times (S (S n)) c v) s)
      with (match cell_get c s with
            | (Ok d, s1) => invoke (read_times (S n) c v) s1
            | (Raise e, s1) => (Raise e, s1)
            end).
    unfold cell_get. rewrite Hc, Hcur.
    set (s1 := with_cells _ s).
    destruct (IH s1 (MkCell (value r) (<[id := comp]> (subscribers r))))
      as (s' & Hinv & Hsubs & Hcur'); [done|by apply lookup_insert_eq|].
    exists s'. split; [done|]. split; [|done].
    rewrite Hsubs. unfold s1. rewrite subs_with_cells_insert, decide_True by done.
    rewrite insert_insert_eq. unfold subs. by rewrite Hc.
Qed.

(** C8: [n ≥ 1] reads of a cell by a component running under the context
    [(id, comp)] leave, in the subscriber table of the cell, the pair
    [id ↦ comp] in place of whatever [id] was bound to, and exactly one
    entry for [id]. *)
Theorem reads_register_once n c v s id comp r :
  1 ≤ n ->
  current_id s = Some (id, comp) ->
  cells s !! c = Some r ->
  ∃ s', invoke (read_times n c v) s = (Ok v, s')
    ∧ subs c s' = <[id := comp]> (subs c s)
    ∧ length (filter (λ e, e.1 = id) (Object_entries (subs c s'))) = 1.
Proof.
  intros Hn Hcur Hc. destruct n as [|n]; [lia|].
  destruct (invoke_read_times n c v s id comp r Hcur Hc) as (s' & Hinv & Hsubs & _).
  exists s'. repeat split; [done..|].
  apply filter_key_length with comp; [apply NoDup_Object_entries|].
  apply elem_of_Object_entries. rewrite Hsubs. apply lookup_insert_eq.
Qed.

(** ** Parsing the tag specifier *)

Lemma append_String a (x y : string) : String a x +:+ y = String a (x +:+ y).
Proof. reflexivity. Qed.

Lemma append_empty_l (y : string) : "" +:+ y = y.
Proof. reflexivity. Qed.

Lemma append_snoc_assoc (x : string) c t :
  (x +:+ String c "") +:+ t = x +:+ String c t.
Proof.
  induction x as [|a x IH]; [done|]. by rewrite !append_String, IH.
Qed.

Lemma append_empty_r (x : string) : x +:+ "" = x.
Proof. induction x as [|a x IH]; [done|]. by rewrite append_String, IH. Qed.

Lemma starts_sep_frags_text frs : starts_sep (frags_text frs) = true.
Proof. destruct frs as [|[t|t] frs]; done. Qed.

Lemma span_token_append t rest :
  no_sep t = true -> starts_sep rest = true -> span_token (t +:+ rest) = t.
Proof.
  intros Ht Hrest. induction t as [|c t IH].
  - rewrite append_empty_l.
    destruct rest as [|c r]; [done|]. simpl in *. by rewrite Hrest.
  - simpl in Ht. apply andb_prop in Ht as [Hc Ht]. apply negb_true_iff in Hc.
    rewrite append_String. simpl. rewrite Hc. by rewrite IH.
Qed.

Lemma is_token_no_sep t :
  is_token t = true -> t ≠ "" ∧ no_sep t = true.
Proof.
  unfold is_token. intros H. apply andb_prop in H as [Hne Hns].
  split; [|done]. intros ->. done.
Qed.

Lemma match_tag_spec_of tag frs :
  is_token tag = true -> match_tag (spec_of tag frs) = Some tag.
Proof.
  intros H. apply is_token_no_sep in H as [Hne Hns].
  unfold match_tag, spec_of.
  rewrite span_token_append by (done || apply starts_sep_frags_text).
  by destruct tag.
Qed.

Lemma scan_frags_unfold m cur s :
  scan_frags m cur s
  = match s with
    | EmptyString => close_run m cur
    | String c r =>
        if is_sep c then
          close_run m cur
            ++ scan_frags m (if bool_decide (c = m) then Some "" else None) r
        else scan_frags m ((λ t, t +:+ String c "") <$> cur) r
    end.
Proof. by destruct s. Qed.

Lemma scan_frags_token m cur t rest :
  no_sep t = true ->
  scan_frags m cur (t +:+ rest) = scan_frags m ((λ x, x +:+ t) <$> cur) rest.
Proof.
  revert cur. induction t as [|c t IH]; intros cur Ht.
  - rewrite append_empty_l. f_equal.
    destruct cur as [x|]; simpl; [|done]. by rewrite append_empty_r.
  - simpl in Ht. apply andb_prop in Ht as [Hc Ht]. apply negb_true_iff in Hc.
    rewrite append_String, scan_frags_unfold, Hc, IH by done. f_equal.
    destruct cur as [x|]; simpl; [|done]. by rewrite append_snoc_assoc.
Qed.

Lemma is_sep_marker f : is_sep (marker f) = true.
Proof. by destruct f. Qed.

Lemma scan_frags_frags_text m cur frs :
  Forall (λ f, is_token (token f) = true) frs ->
  scan_frags m cur (frags_text frs)
  = close_run m cur ++ (String m <$> tokens_of m frs).
Proof.
  intros Hall. revert cur. induction Hall as [|f frs Hf _ IH]; intros cur.
  - simpl. destruct cur as [[|c t]|]; done.
  - change (frags_text (f :: frs))
      with (String (marker f) (token f +:+ frags_text frs)).
    rewrite scan_frags_unfold, is_sep_marker. f_equal.
    apply is_token_no_sep in Hf as [Hne Hns].
    rewrite scan_frags_token, IH by done.
    unfold tokens_of at 2. simpl. fold (tokens_of m frs).
    destruct (bool_decide (marker f = m)); simpl; [|done].
    by destruct (token f).
Qed.

Lemma match_all_spec_of m tag frs :
  is_token tag = true ->
  Forall (λ f, is_token (token f) = true) frs ->
  match_all m (spec_of tag frs) = (String m <$> tokens_of m frs).
Proof.
  intros Htag Hall. unfold match_all, spec_of.
  apply is_token_no_sep in Htag as [_ Hns].
  rewrite scan_frags_token by done. simpl.
  by rewrite scan_frags_frags_text.
Qed.

(** ** The element of a description *)

Lemma createElement_Ok tag el :
  createElement tag = Ok el ->
  valid_element_name tag = true ∧ el = Element (lower tag) [] [] [] [].
Proof.
  unfold createElement. destruct (valid_element_name tag); [|done].
  by intros [= <-].
Qed.


(** The shape of the element at each stage. *)
Lemma apply_attrs_Element attrs t a p c ch el :
  apply_attrs attrs (Element t a p c ch) = Ok el ->
  ∃ a' p' c', el = Element t a' p' c' ch.
Proof.
  revert a p c. induction attrs as [|[k d|event h] attrs IH]; intros a p c; simpl.
  - intros [= <-]. by eexists _, _, _.
  - destruct (to_string d) as [v|]; [|done].
    destruct (valid_attribute_name k); simpl; [apply IH|done].
  - apply IH.
Qed.

Lemma add_classes_Raise frags e :
  foldl (λ r s, res_bind r (classList_add (slice1 s))) (Raise e) frags = Raise e.
Proof. induction frags as [|x frags IH]; [done|]. simpl. apply IH. Qed.

Lemma add_classes_Element frags t a p c ch el :
  add_classes frags (Element t a p c ch) = Ok el ->
  ∃ a', el = Element t a' p (foldl add_token c (slice1 <$> frags)) ch
    ∧ (∀ k, k ≠ "class" -> assoc_get k a' = assoc_get k a)
    ∧ assoc_get "class" a'
      = match frags with
        | [] => assoc_get "class" a
        | _ :: _ => Some (join_tokens (foldl add_token c (slice1 <$> frags)))
        end
    ∧ Forall (λ fr, slice1 fr ≠ "" ∧ no_whitespace (slice1 fr) = true) frags.
Proof.
  unfold add_classes. revert a c.
  induction frags as [|fr frags IH]; intros a c; simpl.
  - intros [= <-]. by eexists.
  - destruct (String.eqb (slice1 fr) "") eqn:Hempty;
      [by rewrite add_classes_Raise|].
    destruct (no_whitespace (slice1 fr)) eqn:Hws;
      [|by rewrite add_classes_Raise].
    intros H. apply IH in H as (a' & -> & Hother & Hclass & Hall).
    exists a'. split_and!.
    + done.
    + intros k Hk. rewrite Hother by done. by apply assoc_get_set_ne.
    + rewrite Hclass. destruct frags as [|fr' frags]; [|done].
      apply assoc_get_set_eq.
    + constructor; [|done]. split; [|done]. by apply String.eqb_neq.
Qed.

Lemma set_id_Element ids t a p c ch :
  set_id ids (Element t a p c ch)
  = Ok (Element t
          match ids with
          | i :: _ => assoc_set "id" (slice1 i) a
          | [] => a
          end p c ch).
Proof. destruct ids as [|i ids]; [done|]. apply setAttribute_id. Qed.

(** The stages of [decorate], when none of them raises. *)
Lemma decorate_Ok spec tag attrs el :
  decorate spec tag attrs = Ok el ->
  ∃ a1 p1 c1 a2,
    valid_element_name tag = true
    ∧ apply_attrs (default [] attrs) (Element (lower tag) [] [] [] [])
      = Ok (Element (lower tag) a1 p1 c1 [])
    ∧ add_classes (match_all "." spec) (Element (lower tag) a1 p1 c1 [])
      = Ok (Element (lower tag) a2 p1
              (foldl add_token c1 (slice1 <$> match_all "." spec)) [])
    ∧ el = Element (lower tag)
             match match_all "#" spec with
             | i :: _ => assoc_set "id" (slice1 i) a2
             | [] => a2
             end p1 (foldl add_token c1 (slice1 <$> match_all "." spec)) [].
Proof.
  unfold decorate.
  destruct (createElement tag) as [el0|e] eqn:Hc; [|done].
  apply createElement_Ok in Hc as [Hvalid ->]. simpl.
  destruct (apply_attrs _ _) as [el1|e] eqn:Ha; [|done].
  destruct (apply_attrs_Element _ _ _ _ _ _ _ Ha) as (a1 & p1 & c1 & ->). simpl.
  destruct (add_classes _ _) as [el2|e] eqn:Hcl; [|done].
  destruct (add_classes_Element _ _ _ _ _ _ _ Hcl) as (a2 & -> & _). simpl.
  rewrite set_id_Element. intros [= <-]. by eexists a1, p1, c1, a2.
Qed.

Lemma render_children_Element R l t a p c ch s dom s' :
  render_children R l (Element t a p c ch) s = (Ok dom, s') ->
  ∃ ch', dom = Some (Element t a p c ch').
Proof.
  revert ch s. induction l as [|child l IH]; intros ch s; simpl.
  - intros [= <- <-]. by eexists.
  - destruct (R child s) as [[[cnode|]|e] s1]; [apply IH|apply IH|done].
Qed.

Lemma elem_of_foldl_add_token toks c x :
  x ∈ foldl add_token c toks ↔ x ∈ c ∨ x ∈ toks.
Proof.
  revert c. induction toks as [|tok toks IH]; intros c; simpl.
  - set_solver.
  - rewrite IH. unfold add_token. case_bool_decide; set_solver.
Qed.

Lemma foldl_add_token_NoDup c l :
  NoDup c -> NoDup (foldl add_token c l).
Proof.
  revert c. induction l as [|x l IH]; intros c Hc; [done|]. simpl.
  apply IH. unfold add_token. case_bool_decide; [done|].
  apply NoDup_app. split_and!; [done|set_solver|apply NoDup_singleton].
Qed.

Lemma slice1_markers m (toks : list string) :
  slice1 <$> (String m <$> toks) = toks.
Proof. induction toks as [|x toks IH]; [done|]. by rewrite !fmap_cons, IH. Qed.

Lemma add_classes_Ok frags t a p c ch :
  Forall (λ fr, slice1 fr ≠ "" ∧ no_whitespace (slice1 fr) = true) frags ->
  ∃ el, add_classes frags (Element t a p c ch) = Ok el.
Proof.
  unfold add_classes. intros Hall. revert a c.
  induction Hall as [|fr frags [Hne Hws] _ IH]; intros a c; simpl.
  - by eexists.
  - rewrite (proj2 (String.eqb_neq _ _) Hne), Hws. apply IH.
Qed.

Lemma add_classes_whitespace frags t a p c ch :
  Forall (λ fr, slice1 fr ≠ "") frags ->
  Exists (λ fr, no_whitespace (slice1 fr) = false) frags ->
  add_classes frags (Element t a p c ch) = Raise InvalidCharacterError.
Proof.
  unfold add_classes. intros Hne. revert a c.
  induction Hne as [|fr frags Hfr _ IH]; intros a c Hex.
  - by apply Exists_nil in Hex.
  - cbn [foldl res_bind classList_add].
    rewrite (proj2 (String.eqb_neq _ _) Hfr).
    destruct (no_whitespace (slice1 fr)) eqn:Hws; [|apply add_classes_Raise].
    apply IH. apply Exists_cons in Hex as [Hex|Hex]; [congruence|done].
Qed.

(** C7: for a tag name followed by [#token] and [.token] fragments in any
    order.  When [RenderDOM] returns, the element is the one the browser
    makes for the tag name (HTML puts the name in lower case); the tokens
    of the class fragments are all in its class list, which they alone
    make up, each once and in order of appearance, when the description
    gives no attribute map, and which its [class] attribute spells out;
    the token of the first id fragment is its [id].  It does return, for
    the specifier alone, when the browser accepts the tag name and no
    class token holds white space; it raises an [InvalidCharacterError]
    when a class token does, and also, whatever follows the specifier,
    when the browser refuses the tag name. *)
Theorem RenderDOM_tag_specifier tag frs rest s :
  is_token tag = true ->
  Forall (λ f, is_token (token f) = true) frs ->
  (∀ dom s',
     RenderDOM (VArr (str (spec_of tag frs) :: rest)) s = (Ok dom, s') ->
     ∃ el, dom = Some el
       ∧ tag_of el = Some (lower tag)
       ∧ (∀ c, FClass c ∈ frs -> c ∈ classes_of el)
       ∧ ((split_attrs rest).1 = None ->
          classes_of el = foldl add_token [] (tokens_of "." frs)
          ∧ NoDup (classes_of el)
          ∧ ∀ c, c ∈ classes_of el -> FClass c ∈ frs)
       ∧ (tokens_of "." frs ≠ [] ->
          getAttribute "class" el = Some (join_tokens (classes_of el)))
       ∧ (∀ i, head (tokens_of "#" frs) = Some i ->
            getAttribute "id" el = Some i))
  ∧ (valid_element_name tag = true ->
     Forall (λ c, no_whitespace c = true) (tokens_of "." frs) ->
     ∃ el, RenderDOM (VArr [str (spec_of tag frs)]) s = (Ok (Some el), s))
  ∧ (valid_element_name tag = true ->
     Exists (λ c, no_whitespace c = false) (tokens_of "." frs) ->
     RenderDOM (VArr [str (spec_of tag frs)]) s
     = (Raise InvalidCharacterError, s))
  ∧ (valid_element_name tag = false ->
     RenderDOM (VArr (str (spec_of tag frs) :: rest)) s
     = (Raise InvalidCharacterError, s)).
Proof.
  intros Htag Hall. unfold str. rewrite !RenderDOM_element.
  rewrite match_tag_spec_of by done. split_and!.
  - intros dom s'.
    destruct (decorate _ _ _) as [el0|e] eqn:Hd; [|done].
    apply decorate_Ok in Hd as (a1 & p1 & c1 & a2 & _ & Hattrs & Hcl & ->).
    rewrite !match_all_spec_of in * by done.
    apply add_classes_Element in Hcl as (a2' & [= <-] & Hother & Hclass & _).
    rewrite !slice1_markers in *.
    intros H. apply render_children_Element in H as [ch' ->].
    eexists. split; [done|]. simpl. split_and!.
    + done.
    + intros c Hc. apply elem_of_foldl_add_token. right.
      unfold tokens_of. apply list_elem_of_omap. by exists (FClass c).
    + intros Hnone. rewrite Hnone in Hattrs. simpl in Hattrs.
      injection Hattrs as _ _ <-. split_and!.
      * done.
      * apply foldl_add_token_NoDup. constructor.
      * intros c Hc. apply elem_of_foldl_add_token in Hc as [Hc|Hc];
          [by apply elem_of_nil in Hc|].
        unfold tokens_of in Hc. apply list_elem_of_omap in Hc as (f & Hf & Hm).
        destruct f as [t|t]; simpl in Hm; [done|]. by injection Hm as <-.
    + intros Hne.
      assert (Hc : assoc_get "class" a2
                   = Some (join_tokens (foldl add_token c1 (tokens_of "." frs)))).
      { rewrite Hclass. by destruct (tokens_of "." frs). }
      destruct (tokens_of "#" frs); [done|]. simpl.
      by rewrite assoc_get_set_ne.
    + intros i Hi. destruct (tokens_of "#" frs) as [|i' ids]; [done|].
      simpl in Hi. injection Hi as ->. simpl. apply assoc_get_set_eq.
  - intros Hvalid Hws. cbn [split_attrs fst snd].
    unfold decorate, createElement. rewrite Hvalid. cbn [res_bind].
    change (apply_attrs (default [] None) ?e) with (Ok (A := DomNode) e).
    cbn [res_bind].
    destruct (add_classes_Ok (match_all "." (spec_of tag frs)) (lower tag)
                [] [] [] []) as [el2 Hcl].
    { rewrite match_all_spec_of by done. apply Forall_fmap, Forall_forall.
      intros c Hc. simpl. split.
      - unfold tokens_of in Hc. apply list_elem_of_omap in Hc as (f & Hf & Hm).
        case_bool_decide; [|done]. injection Hm as <-.
        apply (proj1 (Forall_forall _ _) Hall) in Hf.
        by apply is_token_no_sep in Hf as [? _].
      - by apply (proj1 (Forall_forall _ _) Hws). }
    rewrite Hcl. cbn [res_bind].
    apply add_classes_Element in Hcl as (a2 & -> & _).
    rewrite set_id_Element. cbn [render_children]. by eexists.
  - intros Hvalid Hex. cbn [split_attrs fst snd].
    unfold decorate, createElement. rewrite Hvalid. cbn [res_bind].
    change (apply_attrs (default [] None) ?e) with (Ok (A := DomNode) e).
    cbn [res_bind]. rewrite add_classes_whitespace; [done| |].
    + rewrite match_all_spec_of by done. apply Forall_fmap, Forall_forall.
      intros c Hc. simpl.
      unfold tokens_of in Hc. apply list_elem_of_omap in Hc as (f & Hf & Hm).
      case_bool_decide; [|done]. injection Hm as <-.
      apply (proj1 (Forall_forall _ _) Hall) in Hf.
      by apply is_token_no_sep in Hf as [? _].
    + rewrite match_all_spec_of by done. apply Exists_fmap.
      eapply Exists_impl; [exact Hex|]. done.
  - intros Hvalid. unfold decorate, createElement. by rewrite Hvalid.
Qed.
(** One turn of the loop of a write. *)
Lemma set_loop_cons c id node rest s :
  set_loop c ((id, node) :: rest) s
  = match querySelector (pretty id) (document s) with
    | Some el =>
        match render_ret (body_of node) (console_log (LogVisit id node) s) with
        | (Ok dom, s2) =>
            match stamp id dom with
            | Ok dom' =>
                set_loop c rest
                  (with_document (replaceWith el dom' (document s2)) s2)
            | Raise e => (Raise e, s2)
            end
        | (Raise e, s2) => (Raise e, s2)
        end
    | None =>
        set_loop c rest
          (delete_subscriber c id
             (console_log (LogFree id) (console_log (LogVisit id node) s)))
    end.
Proof. reflexivity. Qed.

(** ** Re-rendering a subscriber *)

(** C2 (as amended): at the visit of a subscriber whose node is located,
    the write calls the component function directly, with the stack and
    the identifier counter as they are (no context is pushed for it),
    renders what the call returns, stamps the element with the
    subscriber's identifier and puts it in the place of the located node:
    afterwards the same lookup finds the new element there. *)
Theorem set_loop_rerenders_located c id node rest s el v s1 t a p cl ch s2 :
  querySelector (pretty id) (document s) = Some el ->
  call node (console_log (LogVisit id node) s) = (Ok v, s1) ->
  RenderDOM v s1 = (Ok (Some (Element t a p cl ch)), s2) ->
  set_loop c ((id, node) :: rest) s
  = set_loop c rest
      (with_document
         (replaceWith el (Element t (assoc_set "data-uid" (pretty id) a) p cl ch)
            (document s)) s2)
  ∧ _id_stack s1 = _id_stack s
  ∧ _id s1 = _id s
  ∧ querySelector (pretty id)
      (replaceWith el (Element t (assoc_set "data-uid" (pretty id) a) p cl ch)
         (document s)) = Some el
  ∧ node_at el
      (replaceWith el (Element t (assoc_set "data-uid" (pretty id) a) p cl ch)
         (document s))
    = Some (Element t (assoc_set "data-uid" (pretty id) a) p cl ch).
Proof.
  intros Hq Hcall Hrender. unfold call in Hcall.
  pose proof (invoke_globals _ _ _ _ Hcall) as (Hid & Hst & Hdoc & _).
  pose proof (rf_document _ _ _ (RenderDOM_frame _ _ _ _ Hrender)) as Hdoc'.
  simpl in Hid, Hst, Hdoc.
  destruct (querySelector_replaceWith (pretty id)
              (Element t (assoc_set "data-uid" (pretty id) a) p cl ch)
              (document s) el) as [Hfound Hat];
    [apply assoc_get_set_eq|done|].
  split_and!; [|done..].
  rewrite set_loop_cons, Hq, render_ret_invoke, Hcall, Hrender, stamp_Element.
  by rewrite Hdoc', Hdoc.
Qed.

(** ** Subscriber tables across a write *)



(** ** Pruning during a write *)

(** The visit of an entry whose node is not in the document. *)
Lemma set_loop_visit_unlocated c id node s :
  querySelector (pretty id) (document s) = None ->
  ∃ s_next, set_loop c [(id, node)] s = (Ok (), s_next)
    ∧ subs c s_next !! id = None
    ∧ freed (new_lines s s_next) = [id]
    ∧ document s_next = document s.
Proof.
  intros Hq. rewrite set_loop_cons, Hq. eexists. split; [done|].
  split_and!.
  - rewrite subs_delete_subscriber, decide_True by done. apply lookup_delete_eq.
  - rewrite (new_lines_app _ _ [LogVisit id node; LogFree id]); [done|].
    unfold delete_subscriber. simpl.
    destruct (cells s !! c); simpl; by rewrite <- app_assoc.
  - unfold delete_subscriber. simpl. by destruct (cells s !! c).
Qed.

(** The visit of an entry whose node is in the document, when it raises
    nothing. *)
Lemma set_loop_visit_located c id node s el s_next :
  querySelector (pretty id) (document s) = Some el ->
  set_loop c [(id, node)] s = (Ok (), s_next) ->
  ∃ v s1 dom s2 new,
    call node (console_log (LogVisit id node) s) = (Ok v, s1)
    ∧ RenderDOM v s1 = (Ok dom, s2)
    ∧ stamp id dom = Ok new
    ∧ s_next = with_document (replaceWith el new (document s)) s2
    ∧ getAttribute "data-uid" new = Some (pretty id)
    ∧ querySelector (pretty id) (document s_next) = Some el
    ∧ node_at el (document s_next) = Some new
    ∧ ∀ c' k, is_Some (subs c' s !! k) -> is_Some (subs c' s_next !! k).
Proof.
  intros Hq. rewrite set_loop_cons, Hq, render_ret_invoke. unfold call.
  destruct (invoke (body_of node) _) as [[v|e] s1] eqn:Hcall; [|done].
  destruct (RenderDOM v s1) as [[dom|e] s2] eqn:Hr; [|done].
  destruct (stamp id dom) as [new|e] eqn:Hs; [|done].
  simpl. intros [= <-].
  pose proof (invoke_frame _ _ _ _ Hcall) as F1.
  pose proof (RenderDOM_frame _ _ _ _ Hr) as F2.
  pose proof (rf_document _ _ _ F1) as Hdoc1.
  pose proof (rf_document _ _ _ F2) as Hdoc2. simpl in Hdoc1.
  assert (Hattr : getAttribute "data-uid" new = Some (pretty id)).
  { apply stamp_Ok in Hs as (t & a & p & cl & ch & _ & ->). simpl.
    apply assoc_get_set_eq. }
  destruct (querySelector_replaceWith (pretty id) new (document s) el Hattr Hq)
    as [Hfound Hat].
  eexists v, s1, dom, s2, new. rewrite Hdoc2, Hdoc1.
  split_and!; try done.
  intros c' k Hk. rewrite subs_with_document.
  destruct (rf_subs _ _ _ F2 c' k) as [Heq|(f & Hf & _)]; [|by exists f].
  rewrite Heq.
  destruct (rf_subs _ _ _ F1 c' k) as [Heq'|(f & Hf & _)]; [|by exists f].
  by rewrite Heq'.
Qed.

(** C6 (as amended): the loop of a write runs over the entries taken
    before it began, in whatever order they are given, whatever it
    deletes on the way: it visits them in turn, all of them when it
    returns normally, and an exception ends it.  An entry is judged when
    it is visited, in the document as the entries before it left it.  If
    its node is not located the entry is deleted then and there and
    logged as freed.  If its node is located nothing is freed: the
    function of the entry is called, what it returns is rendered and
    stamped with the identifier of the entry, the new element takes the
    place of the located node, where the same lookup now finds it, and
    the entry is still in the table.  When the write is made on an empty
    stack, over identifiers that all came from the counter, and returns
    normally, the table holds at the end what the visits decided: the
    entries not located are gone, the located ones are as they were. *)
Theorem set_loop_prunes_at_visit c entries s r s' :
  entries ≡ₚ Object_entries (subs c s) ->
  set_loop c entries s = (r, s') ->
  visits (new_lines s s') `prefix_of` entries
  ∧ (r = Ok () -> visits (new_lines s s') = entries)
  ∧ (∀ pre id node post s_mid,
       entries = pre ++ (id, node) :: post ->
       set_loop c pre s = (Ok (), s_mid) ->
       set_loop c (pre ++ [(id, node)]) s = set_loop c [(id, node)] s_mid
       ∧ match querySelector (pretty id) (document s_mid) with
         | None =>
             ∃ s_next, set_loop c [(id, node)] s_mid = (Ok (), s_next)
               ∧ subs c s_next !! id = None
               ∧ freed (new_lines s_mid s_next) = [id]
               ∧ document s_next = document s_mid
         | Some el =>
             freed (new_lines s_mid (set_loop c [(id, node)] s_mid).2) = []
             ∧ ∀ s_next, set_loop c [(id, node)] s_mid = (Ok (), s_next) ->
                 ∃ v s1 dom s2 new,
                   call node (console_log (LogVisit id node) s_mid) = (Ok v, s1)
                   ∧ RenderDOM v s1 = (Ok dom, s2)
                   ∧ stamp id dom = Ok new
                   ∧ s_next
                     = with_document (replaceWith el new (document s_mid)) s2
                   ∧ getAttribute "data-uid" new = Some (pretty id)
                   ∧ querySelector (pretty id) (document s_next) = Some el
                   ∧ node_at el (document s_next) = Some new
                   ∧ is_Some (subs c s_next !! id)
         end)
  ∧ (_id_stack s = [] ->
     Forall (λ e, e.1 < _id s) entries ->
     r = Ok () ->
     ∀ pre id node post, entries = pre ++ (id, node) :: post ->
       ∃ s_mid, set_loop c pre s = (Ok (), s_mid)
         ∧ subs c s' !! id
           = match querySelector (pretty id) (document s_mid) with
             | Some _ => Some node
             | None => None
             end).
Proof.
  intros Hperm Hloop.
  assert (Hnd : NoDup entries.*1).
  { rewrite Hperm. apply NoDup_Object_entries. }
  split_and!.
  - apply set_loop_frame in Hloop as [lines H].
    rewrite (new_lines_app _ _ _ (wf_console _ _ _ _ _ _ H)).
    by apply (wf_visits _ _ _ _ _ _ H).
  - intros ->. apply set_loop_frame in Hloop as [lines H].
    rewrite (new_lines_app _ _ _ (wf_console _ _ _ _ _ _ H)).
    by apply (wf_visits _ _ _ _ _ _ H).
  - intros pre id node post s_mid -> Hpre.
    split; [by rewrite set_loop_app, Hpre|].
    destruct (querySelector (pretty id) (document s_mid)) as [el|] eqn:Hq;
      [|by apply set_loop_visit_unlocated].
    split.
    + rewrite set_loop_cons, Hq.
      destruct (render_ret _ _) as [[dom|e] s2] eqn:Hr.
      * pose proof (rf_console _ _ _ (render_ret_frame _ _ _ _ Hr)) as Hcon.
        simpl in Hcon.
        destruct (stamp id dom) as [new|e]; simpl;
          by rewrite (new_lines_app _ _ [LogVisit id node]).
      * pose proof (rf_console _ _ _ (render_ret_frame _ _ _ _ Hr)) as Hcon.
        simpl in Hcon. simpl. by rewrite (new_lines_app _ _ [LogVisit id node]).
    + intros s_next Hstep.
      destruct (set_loop_visit_located _ _ _ _ _ _ Hq Hstep)
        as (v & s1 & dom & s2 & new & ? & ? & ? & ? & ? & ? & ? & Hkeep).
      eexists v, s1, dom, s2, new. split_and!; try done.
      apply Hkeep.
      assert (Hin : subs c s !! id = Some node).
      { apply elem_of_Object_entries. rewrite <- Hperm. set_solver. }
      rewrite fmap_app, fmap_cons in Hnd. simpl in Hnd.
      apply NoDup_app in Hnd as (_ & Hnotin & _).
      apply set_loop_frame in Hpre as [l1 W1].
      destruct (wf_subs _ _ _ _ _ _ W1 c id) as [Heq|[(_ & _ & Hf)|(f & Hf & _)]].
      * by rewrite Heq, Hin.
      * exfalso. apply (wf_freed_sub _ _ _ _ _ _ W1) in Hf.
        apply (Hnotin id Hf). by left.
      * by exists f.
  - intros Hst Hbound -> pre id node post ->.
    rewrite fmap_app, fmap_cons in Hnd. simpl in Hnd.
    apply NoDup_app in Hnd as (_ & Hpre & Hnd).
    apply NoDup_cons in Hnd as [Hpost _].
    assert (Hid : id < _id s).
    { rewrite Forall_app, Forall_cons in Hbound. by destruct Hbound as (_ & ? & _). }
    assert (Hin : subs c s !! id = Some node).
    { apply elem_of_Object_entries. rewrite <- Hperm. set_solver. }
    rewrite set_loop_app in Hloop.
    destruct (set_loop c pre s) as [[[]|e] s_mid] eqn:Hp; [|done].
    exists s_mid. split; [done|].
    apply set_loop_frame in Hp as [l1 H1]. simpl in H1.
    pose proof (write_frame_stack _ _ _ _ _ H1) as Hst1. rewrite Hst in Hst1.
    pose proof (wf_id _ _ _ _ _ _ H1) as Hid1.
    assert (Hmid : subs c s_mid !! id = Some node).
    { rewrite <- Hin. eapply write_frame_unvisited; [done..|].
      intros Hx. apply (Hpre id); [done|set_solver]. }
    rewrite set_loop_cons in Hloop.
    destruct (querySelector (pretty id) (document s_mid)) as [el|].
    + destruct (render_ret _ _) as [[dom|e] s2] eqn:Hr; [|done].
      destruct (stamp id dom) as [dom'|]; [|done].
      apply render_ret_frame in Hr. simpl in Hr.
      assert (H2 : subs c s2 !! id = Some node).
      { rewrite <- Hmid.
        refine (render_frame_kept _ _ _ c id Hr Hst1 _). simpl; lia. }
      destruct Hr as [Hid2 (ex & Hst2 & _ & Hex) _ _ _ _]. simpl in *.
      rewrite (Hex eq_refl), Hst1 in Hst2. simpl in Hst2.
      apply set_loop_frame in Hloop as [l3 H3]. simpl in H3.
      rewrite <- H2. rewrite <- (subs_with_document c (replaceWith el dom' (document s2)) s2).
      eapply write_frame_unvisited; [done|done|simpl; lia|done].
    + apply set_loop_frame in Hloop as [l3 H3]. simpl in H3.
      set (s3 := delete_subscriber _ _ _) in H3.
      assert (Hs3 : _id s3 = _id s_mid ∧ _id_stack s3 = []).
      { unfold s3, delete_subscriber. simpl. by destruct (cells s_mid !! c). }
      destruct Hs3 as [Hid3 Hst3].
      assert (Hn3 : subs c s3 !! id = None).
      { unfold s3. rewrite subs_delete_subscriber, decide_True by done.
        apply lookup_delete_eq. }
      rewrite <- Hn3. eapply write_frame_unvisited; [done|done|lia|done].
Qed.
(** * Part III: further properties of the code *)

(** ** What rendering leaves alone and what it returns *)

(** X1: [RenderDOM] never touches the document, the console or the value
    of a cell, and never lowers the identifier counter, whether it
    returns or raises. *)
Theorem RenderDOM_leaves_document_and_values node s :
  document (RenderDOM node s).2 = document s
  ∧ console (RenderDOM node s).2 = console s
  ∧ (∀ c, value <$> cells (RenderDOM node s).2 !! c = value <$> cells s !! c)
  ∧ _id s ≤ _id (RenderDOM node s).2.
Proof.
  destruct (RenderDOM node s) as [r s'] eqn:Hr. apply RenderDOM_frame in Hr.
  destruct Hr as [Hid _ Hdoc Hcon Hval _]. by split_and!.
Qed.

Lemma RenderDOM_component_result f s dom s' :
  RenderDOM (VFun f) s = (Ok dom, s') ->
  _id s < _id s'
  ∧ ∃ el, dom = Some el ∧ tag_of el ≠ None
      ∧ getAttribute "data-uid" el = Some (pretty (_id s)).
Proof.
  destruct f as [body]. simpl.
  destruct (render_ret (body []) _) as [[dom0|e] s2] eqn:Hr; [|done].
  destruct (stamp (_id s) dom0) as [dom'|e] eqn:Hs; [|done].
  intros [= <- <-]. apply render_ret_frame in Hr. destruct Hr as [Hid _ _ _ _ _].
  simpl in *. split; [lia|].
  apply stamp_Ok in Hs as (t & a & p & c & ch & -> & ->).
  eexists. split_and!; [done|done|]. simpl. apply assoc_get_set_eq.
Qed.

(** X2: what a normal return of [RenderDOM] carries.  Data gives a text
    node of its string conversion, or nothing when it is falsy, and
    leaves the state alone; an array gives an element; a component gives
    an element stamped with the identifier taken from the counter, which
    has moved past it; any other object gives the text node [[object
    Object]]. *)
Theorem RenderDOM_result_shape node s dom s' :
  RenderDOM node s = (Ok dom, s') ->
  match node with
  | VData d =>
      s' = s ∧ dom = (if truthy d then TextNode <$> to_string d else None)
      ∧ (truthy d = true -> is_Some dom)
  | VFun _ =>
      _id s < _id s'
      ∧ ∃ el, dom = Some el ∧ tag_of el ≠ None
          ∧ getAttribute "data-uid" el = Some (pretty (_id s))
  | VArr _ => ∃ el, dom = Some el ∧ tag_of el ≠ None
  | VObj _ => s' = s ∧ dom = Some (TextNode "[object Object]")
  end.
Proof.
  destruct node as [d|f|items|entries].
  - simpl. unfold createTextNode.
    destruct (truthy d); [|by intros [= <- <-]].
    destruct (to_string d) as [t|]; [|done]. by intros [= <- <-].
  - apply RenderDOM_component_result.
  - destruct (RenderDOM_array_cases items s) as [(spec & rest & ->)|Hraise];
      [|by rewrite Hraise].
    rewrite RenderDOM_element. destruct (match_tag spec) as [tag|]; [|done].
    destruct (decorate _ _ _) as [el0|e] eqn:Hd; [|done].
    apply decorate_Ok in Hd as (a1 & p1 & c1 & a2 & _ & _ & _ & ->).
    intros H. apply render_children_Element in H as [ch' ->]. by eexists.
  - simpl. unfold object_text. destruct (bool_decide _); [done|].
    by intros [= <- <-].
Qed.

(** X3: a component whose description is a truthy datum or an object
    that is not an array makes [RenderDOM] raise a [TypeError]: the text
    node made for it has no [setAttribute], and a value with no string
    conversion makes [createTextNode] raise it before.  The context of
    the component stays on the stack. *)
Theorem RenderDOM_text_component_raises f s v s1 :
  call f (push (_id s, f) (with_id (S (_id s)) s)) = (Ok v, s1) ->
  renders_to_text v = true ->
  RenderDOM (VFun f) s = (Raise TypeError, s1)
  ∧ _id_stack s1 = (_id s, f) :: _id_stack s.
Proof.
  intros Hcall Hv. destruct f as [body]. unfold call in Hcall; simpl in Hcall.
  split.
  - simpl. rewrite render_ret_invoke, Hcall.
    destruct v as [d| | |entries]; simpl in *; [|done|done|].
    + rewrite Hv. unfold createTextNode. by destruct (to_string d).
    + by destruct (object_text _).
  - by apply invoke_globals in Hcall as (_ & -> & _).
Qed.


(** ** Element descriptions *)

Lemma span_token_split s :
  ∃ rest, s = span_token s +:+ rest
    ∧ no_sep (span_token s) = true ∧ starts_sep rest = true.
Proof.
  induction s as [|c s (rest & Hs & Hns & Hrest)]; simpl.
  - by exists "".
  - destruct (is_sep c) eqn:Hc.
    + exists (String c s). by rewrite append_empty_l; simpl.
    + exists rest. rewrite append_String, <- Hs. simpl. by rewrite Hc, Hns.
Qed.

Lemma match_tag_None spec : match_tag spec = None ↔ starts_sep spec = true.
Proof.
  unfold match_tag. destruct spec as [|c r]; simpl; [done|].
  destruct (is_sep c); simpl; [done|]. split; done.
Qed.

(** X5: the tag name found in a specifier is its longest prefix free of
    [.] and [#]: [match_tag spec] is [tag] exactly when [tag] is not
    empty, holds no separator, and [spec] is [tag] followed by nothing or
    by a separator. *)
Theorem match_tag_characterised spec tag :
  match_tag spec = Some tag
  ↔ tag ≠ "" ∧ no_sep tag = true
    ∧ ∃ rest, spec = tag +:+ rest ∧ starts_sep rest = true.
Proof.
  split.
  - unfold match_tag. destruct (span_token_split spec) as (rest & Hs & Hns & Hrest).
    destruct (span_token spec) as [|c t] eqn:Ht; [done|]. intros [= <-].
    split_and!; [done|done|]. by exists rest.
  - intros (Hne & Hns & rest & -> & Hrest). unfold match_tag.
    rewrite span_token_append by done. by destruct tag.
Qed.

Lemma scan_frags_well_formed m cur s fr :
  match cur with Some t => no_sep t = true | None => True end ->
  fr ∈ scan_frags m cur s ->
  ∃ tok, fr = String m tok ∧ tok ≠ "" ∧ no_sep tok = true.
Proof.
  assert (Hclose : ∀ cur, match cur with Some t => no_sep t = true | None => True end ->
    fr ∈ close_run m cur -> ∃ tok, fr = String m tok ∧ tok ≠ "" ∧ no_sep tok = true).
  { intros [[|c t]|] Hc Hin; simpl in Hin; try by apply elem_of_nil in Hin.
    apply list_elem_of_singleton in Hin as ->. by exists (String c t). }
  assert (Hsnoc : ∀ t c, no_sep t = true -> is_sep c = false ->
    no_sep (t +:+ String c "") = true).
  { induction t as [|a t IH]; intros c Ht Hc.
    - rewrite append_empty_l. simpl. by rewrite Hc.
    - rewrite append_String. simpl in *. apply andb_prop in Ht as [Ha Ht].
      by rewrite Ha, IH. }
  revert cur. induction s as [|c s IH]; intros cur Hcur; rewrite scan_frags_unfold.
  - by apply Hclose.
  - destruct (is_sep c) eqn:Hc.
    + intros Hin. apply elem_of_app in Hin as [Hin|Hin]; [by eapply Hclose|].
      eapply IH; [|done]. by destruct (bool_decide (c = m)).
    + apply IH. destruct cur as [t|]; simpl; [|done]. by apply Hsnoc.
Qed.

(** X6: every class or id fragment found in a specifier is its marker
    followed by a token that is not empty and holds no [.] and no [#]; a
    marker followed by nothing is dropped. *)
Theorem match_all_well_formed m spec fr :
  fr ∈ match_all m spec ->
  ∃ tok, fr = String m tok ∧ slice1 fr = tok ∧ tok ≠ "" ∧ no_sep tok = true.
Proof.
  intros Hin. apply scan_frags_well_formed in Hin as (tok & -> & Hne & Hns); [|done].
  by exists tok.
Qed.

(** X7: an array that is empty, or whose first entry is not a string, or
    whose specifier has no leading tag name (it is empty or begins with
    [.] or [#]), makes [RenderDOM] raise a [TypeError] before anything is
    created or rendered: the state is untouched. *)
Theorem RenderDOM_array_head items s :
  well_headed items = false ->
  RenderDOM (VArr items) s = (Raise TypeError, s).
Proof.
  destruct items as [|[[| | | | | |spec| |]| | |] rest]; try done.
  unfold well_headed. intros Hs. apply negb_false_iff, match_tag_None in Hs.
  by rewrite RenderDOM_element, Hs.
Qed.

Lemma render_children_data ds el s :
  render_children RenderDOM (VData <$> ds) el s
  = (if forallb printable ds
     then Ok (Some (foldl (λ e n, appendChild n e) el (omap text_of ds)))
     else Raise TypeError, s).
Proof.
  revert el. induction ds as [|d ds IH]; intros el; [done|].
  rewrite fmap_cons. cbn [render_children forallb omap].
  unfold printable at 1, text_of at 1. simpl. unfold createTextNode.
  destruct (truthy d); simpl; [|apply IH].
  destruct (to_string d) as [t|]; simpl; [apply IH|done].
Qed.

Lemma foldl_appendChild t a p c ch (l : list DomNode) :
  foldl (λ e n, appendChild n e) (Element t a p c ch) l
  = Element t a p c (ch ++ l).
Proof.
  revert ch. induction l as [|n l IH]; intros ch; simpl.
  - by rewrite app_nil_r.
  - rewrite IH. by rewrite <- app_assoc.
Qed.

(** X8: an element description whose children are all data, with or
    without an attribute map (without one the first child must not be a
    plain object, which would be taken for the map).  If the making of
    the element raises, because the browser refuses a name or a value has
    no string conversion, so does [RenderDOM].  Otherwise the truthy
    children become text nodes in the order they are written, each
    carrying the string conversion of its datum, the falsy ones
    ([undefined], [null], [false], [0], [NaN], [0n], the empty string)
    leave no node, and a truthy child with no string conversion makes
    [RenderDOM] raise a [TypeError].  The state is untouched in every
    case. *)
Theorem RenderDOM_data_children spec tag attrs ds s :
  match_tag spec = Some tag ->
  (attrs = None -> ∀ d, head ds = Some d -> plain_object d = false) ->
  RenderDOM
    (VArr (str spec :: from_option (λ a, [VObj a]) [] attrs ++ (VData <$> ds))) s
  = (match decorate spec tag attrs with
     | Raise e => Raise e
     | Ok el0 =>
         if forallb printable ds
         then Ok (Some (foldl (λ e n, appendChild n e) el0 (omap text_of ds)))
         else Raise TypeError
     end, s)
  ∧ ∀ el0, decorate spec tag attrs = Ok el0 ->
      tag_of (foldl (λ e n, appendChild n e) el0 (omap text_of ds))
      = Some (lower tag)
      ∧ children_of (foldl (λ e n, appendChild n e) el0 (omap text_of ds))
        = omap text_of ds.
Proof.
  intros Htag Hhead. unfold str. rewrite RenderDOM_element, Htag.
  assert (Hsplit : split_attrs (from_option (λ a, [VObj a]) [] attrs ++ (VData <$> ds))
                   = (attrs, VData <$> ds)).
  { destruct attrs as [a|]; simpl; [done|].
    destruct ds as [|d ds]; simpl; [done|].
    specialize (Hhead eq_refl d eq_refl). by destruct d. }
  rewrite Hsplit. simpl. split.
  - destruct (decorate spec tag attrs) as [el0|e]; [|done].
    apply render_children_data.
  - intros el0 Hd.
    apply decorate_Ok in Hd as (a1 & p1 & c1 & a2 & _ & _ & _ & ->).
    by rewrite foldl_appendChild.
Qed.

Lemma map_attr_None name attrs :
  name ∉ attr_name <$> attrs -> map_attr name attrs = None.
Proof.
  induction attrs as [|[k d|event h] attrs IH]; [done|..];
    rewrite fmap_cons; cbn [map_attr attr_name];
    intros Hn; apply not_elem_of_cons in Hn as [Hne Hn].
  - rewrite (proj2 (String.eqb_neq (lower k) name)) by done. by apply IH.
  - by apply IH.
Qed.

Lemma map_handler_None name attrs :
  name ∉ attr_name <$> attrs -> map_handler name attrs = None.
Proof.
  induction attrs as [|[k d|event h] attrs IH]; [done|..];
    rewrite fmap_cons; cbn [map_handler attr_name];
    intros Hn; apply not_elem_of_cons in Hn as [Hne Hn].
  - by apply IH.
  - rewrite (proj2 (String.eqb_neq ("on" +:+ event) name)) by done. by apply IH.
Qed.

Lemma map_attr_elem_of k d attrs :
  NoDup (attr_name <$> attrs) -> EAttr k d ∈ attrs ->
  map_attr (lower k) attrs = to_string d
  ∧ map_handler (lower k) attrs = None.
Proof.
  induction attrs as [|[k0 d0|event h] attrs IH];
    rewrite ?fmap_cons; cbn [map_attr map_handler attr_name]; intros Hnd Hin.
  - by apply elem_of_nil in Hin.
  - apply NoDup_cons in Hnd as [Hk0 Hnd].
    apply elem_of_cons in Hin as [[= <- <-]|Hin].
    + rewrite String.eqb_refl. split; [done|]. by apply map_handler_None.
    + rewrite (proj2 (String.eqb_neq (lower k0) (lower k))); [by apply IH|].
      intros Heq. apply Hk0. rewrite Heq.
      apply list_elem_of_fmap. by exists (EAttr k d).
  - apply NoDup_cons in Hnd as [Hk0 Hnd].
    apply elem_of_cons in Hin as [?|Hin]; [done|].
    rewrite (proj2 (String.eqb_neq ("on" +:+ event) (lower k))); [by apply IH|].
    intros Heq. apply Hk0. rewrite Heq.
    apply list_elem_of_fmap. by exists (EAttr k d).
Qed.

Lemma map_handler_elem_of event h attrs :
  NoDup (attr_name <$> attrs) -> EHandler event h ∈ attrs ->
  map_handler ("on" +:+ event) attrs = Some h
  ∧ map_attr ("on" +:+ event) attrs = None.
Proof.
  induction attrs as [|[k0 d0|event0 h0] attrs IH];
    rewrite ?fmap_cons; cbn [map_attr map_handler attr_name]; intros Hnd Hin.
  - by apply elem_of_nil in Hin.
  - apply NoDup_cons in Hnd as [Hk0 Hnd].
    apply elem_of_cons in Hin as [?|Hin]; [done|].
    rewrite (proj2 (String.eqb_neq (lower k0) ("on" +:+ event))); [by apply IH|].
    intros Heq. apply Hk0. rewrite Heq.
    apply list_elem_of_fmap. by exists (EHandler event h).
  - apply NoDup_cons in Hnd as [Hk0 Hnd].
    apply elem_of_cons in Hin as [[= <- <-]|Hin].
    + rewrite String.eqb_refl. split; [done|]. by apply map_attr_None.
    + rewrite (proj2 (String.eqb_neq ("on" +:+ event0) ("on" +:+ event)));
        [by apply IH|].
      intros Heq. apply Hk0. rewrite Heq.
      apply list_elem_of_fmap. by exists (EHandler event h).
Qed.

(** The attribute loop over a map that raises nothing and has no
    repeated name. *)
Lemma apply_attrs_Ok attrs t a p c ch :
  Forall (λ e, entry_ok e = true) attrs ->
  NoDup (attr_name <$> attrs) ->
  ∃ a' p' c',
    apply_attrs attrs (Element t a p c ch) = Ok (Element t a' p' c' ch)
    ∧ (∀ n, assoc_get n a' = from_option Some (assoc_get n a) (map_attr n attrs))
    ∧ (∀ n, assoc_get n p'
            = from_option Some (assoc_get n p) (map_handler n attrs))
    ∧ c' = from_option class_tokens c (map_attr "class" attrs).
Proof.
  intros Hok. revert a p c.
  induction Hok as [|[k d|event h] attrs He _ IH]; intros a p c Hnd.
  - by eexists a, p, c.
  - rewrite fmap_cons in Hnd. apply NoDup_cons in Hnd as [Hk Hnd].
    cbn [entry_ok attr_name] in He, Hk.
    apply andb_prop in He as [Hvalid Hd]. apply bool_decide_eq_true in Hd as [v Hv].
    cbn [apply_attrs map_attr map_handler]. rewrite Hv. unfold setAttribute.
    rewrite Hvalid. cbn [res_bind].
    destruct (IH (assoc_set (lower k) v a) p
                (if String.eqb (lower k) "class" then class_tokens v else c) Hnd)
      as (a' & p' & c' & -> & Ha & Hp & ->).
    eexists a', p', _. split; [done|]. split_and!.
    + intros n. rewrite Ha. destruct (String.eqb (lower k) n) eqn:Hn.
      * apply String.eqb_eq in Hn as <-. rewrite map_attr_None by done.
        simpl. apply assoc_get_set_eq.
      * apply String.eqb_neq in Hn.
        destruct (map_attr n attrs); [done|]. simpl. by apply assoc_get_set_ne.
    + done.
    + destruct (String.eqb (lower k) "class") eqn:Hn; [|done].
      apply String.eqb_eq in Hn. rewrite Hn in Hk.
      by rewrite map_attr_None.
  - rewrite fmap_cons in Hnd. apply NoDup_cons in Hnd as [Hk Hnd].
    cbn [attr_name] in Hk.
    cbn [apply_attrs map_attr map_handler setProperty].
    destruct (IH a (assoc_set ("on" +:+ event) h p) c Hnd)
      as (a' & p' & c' & -> & Ha & Hp & ->).
    eexists a', p', _. split; [done|]. split_and!.
    + done.
    + intros n. rewrite Hp. destruct (String.eqb ("on" +:+ event) n) eqn:Hn.
      * apply String.eqb_eq in Hn as <-. rewrite map_handler_None by done.
        simpl. apply assoc_get_set_eq.
      * apply String.eqb_neq in Hn.
        destruct (map_handler n attrs); [done|]. simpl. by apply assoc_get_set_ne.
    + done.
Qed.

Lemma map_attr_no_entry name attrs :
  (∀ k d, EAttr k d ∈ attrs -> lower k ≠ name) -> map_attr name attrs = None.
Proof.
  induction attrs as [|[k d|event h] attrs IH]; [done|..];
    cbn [map_attr]; intros Hno.
  - rewrite (proj2 (String.eqb_neq (lower k) name)) by (eapply Hno; by left).
    apply IH. intros k' d' Hin. apply (Hno k' d'). by right.
  - apply IH. intros k' d' Hin. apply (Hno k' d'). by right.
Qed.

(** X9: an element description with an attribute map, when the browser
    accepts the tag name and the names of the entries that are data, the
    data have string conversions, the class tokens of the specifier hold
    no white space, and no two entries reach the element under one name.
    [RenderDOM] then returns an element and leaves the state alone.  An
    entry that is a function has become a property holding that function.
    An entry that is a datum has become the attribute of its name in
    lower case, holding its string conversion, and a name that no datum
    of the map has is the name of no attribute: a function makes none.
    The exceptions are [id], which an id fragment of the specifier, set
    last, replaces, and [class], which the map sets first and every class
    fragment then adds a token to and writes again. *)
Theorem RenderDOM_attribute_map spec tag attrs s :
  match_tag spec = Some tag ->
  valid_element_name tag = true ->
  Forall (λ fr, no_whitespace (slice1 fr) = true) (match_all "." spec) ->
  Forall (λ e, entry_ok e = true) attrs ->
  NoDup (attr_name <$> attrs) ->
  ∃ el, RenderDOM (VArr [str spec; VObj attrs]) s = (Ok (Some el), s)
    ∧ (∀ event h, EHandler event h ∈ attrs ->
         getProperty ("on" +:+ event) el = Some h)
    ∧ (∀ k d, EAttr k d ∈ attrs -> lower k ≠ "id" -> lower k ≠ "class" ->
         is_Some (to_string d) ∧ getAttribute k el = to_string d)
    ∧ (∀ n, lower n ≠ "id" -> lower n ≠ "class" ->
         (∀ k d, EAttr k d ∈ attrs -> lower k ≠ lower n) ->
         getAttribute n el = None)
    ∧ getAttribute "id" el
      = match match_all "#" spec with
        | i :: _ => Some (slice1 i)
        | [] => map_attr "id" attrs
        end
    ∧ classes_of el
      = foldl add_token (from_option class_tokens [] (map_attr "class" attrs))
          (slice1 <$> match_all "." spec)
    ∧ getAttribute "class" el
      = match match_all "." spec with
        | [] => map_attr "class" attrs
        | _ :: _ => Some (join_tokens (classes_of el))
        end.
Proof.
  intros Htag Hvalid Hws Hok Hnd.
  destruct (apply_attrs_Ok attrs (lower tag) [] [] [] [] Hok Hnd)
    as (a1 & p1 & c1 & Happly & Ha & Hp & ->).
  destruct (add_classes_Ok (match_all "." spec) (lower tag) a1 p1
              (from_option class_tokens [] (map_attr "class" attrs)) [])
    as [el2 Hcl].
  { apply Forall_forall. intros fr Hin. split.
    - apply scan_frags_well_formed in Hin as (tok & -> & Hne & _); done.
    - by apply (proj1 (Forall_forall _ _) Hws). }
  destruct (add_classes_Element _ _ _ _ _ _ _ Hcl)
    as (a2 & -> & Hother & Hclass & _).
  assert (Hd : decorate spec tag (Some attrs)
               = Ok (Element (lower tag)
                       match match_all "#" spec with
                       | i :: _ => assoc_set "id" (slice1 i) a2
                       | [] => a2
                       end p1
                       (foldl add_token
                          (from_option class_tokens [] (map_attr "class" attrs))
                          (slice1 <$> match_all "." spec)) [])).
  { unfold decorate, createElement. rewrite Hvalid. cbn [res_bind].
    change (default [] (Some attrs)) with attrs. rewrite Happly. cbn [res_bind]. rewrite Hcl. cbn [res_bind].
    apply set_id_Element. }
  eexists. split.
  { unfold str. rewrite RenderDOM_element, Htag.
    cbn [split_attrs as_attrs fst snd]. rewrite Hd. done. }
  assert (Hid : ∀ n, n ≠ "id" ->
    assoc_get n match match_all "#" spec with
                | i :: _ => assoc_set "id" (slice1 i) a2
                | [] => a2
                end = assoc_get n a2).
  { intros n Hn. destruct (match_all "#" spec); [done|].
    by apply assoc_get_set_ne. }
  cbn [getProperty getAttribute classes_of].
  change (lower "id") with "id". change (lower "class") with "class".
  split_and!.
  - intros event h Hin.
    destruct (map_handler_elem_of _ _ _ Hnd Hin) as [Hh Hnone].
    by rewrite Hp, Hh.
  - intros k d Hin Hk1 Hk2.
    destruct (map_attr_elem_of _ _ _ Hnd Hin) as [Hv _].
    pose proof (proj1 (Forall_forall _ _) Hok _ Hin) as He. simpl in He.
    apply andb_prop in He as [_ Hs]. apply bool_decide_eq_true in Hs.
    split; [done|]. rewrite Hid, Hother, Ha, Hv by done.
    by destruct Hs as [v ->].
  - intros n Hn1 Hn2 Hno.
    rewrite Hid, Hother, Ha by done. by rewrite map_attr_no_entry.
  - destruct (match_all "#" spec) as [|i ids].
    + rewrite Hother, Ha by done. by destruct (map_attr "id" attrs).
    + apply assoc_get_set_eq.
  - done.
  - rewrite Hid, Hclass by done. destruct (match_all "." spec); [|done].
    rewrite Ha. by destruct (map_attr "class" attrs).
Qed.

(** ** Writes *)

Lemma value_store c x s rec c' :
  cells s !! c = Some rec ->
  value <$> cells (store c x s) !! c'
  = if decide (c' = c) then Some x else value <$> cells s !! c'.
Proof.
  intros Hc. unfold store. rewrite Hc. simpl. apply value_with_cells_insert.
Qed.

(** X10: [set] stores the new value before it notifies anyone and never
    takes it back: whether the write returns or a re-render raises, the
    cell holds the new value afterwards, and the value of every other
    cell is what it was. *)
Theorem set_stores_value c x s rec :
  cells s !! c = Some rec ->
  value <$> cells (set c x s).2 !! c = Some x
  ∧ ∀ c', c' ≠ c ->
      value <$> cells (set c x s).2 !! c' = value <$> cells s !! c'.
Proof.
  intros Hc. rewrite set_unfold, Hc.
  destruct (set_loop c _ (store c x s)) as [r s'] eqn:Hloop. simpl.
  apply set_loop_frame in Hloop as [lines H].
  pose proof (wf_value _ _ _ _ _ _ H) as Hval. split.
  - rewrite Hval, (value_store _ _ _ rec) by done. by rewrite decide_True.
  - intros c' Hne. rewrite Hval, (value_store _ _ _ rec) by done.
    by rewrite decide_False.
Qed.

Lemma set_loop_unlocated c entries s :
  Forall (λ e, querySelector (pretty e.1) (document s) = None) entries ->
  ∃ s', set_loop c entries s = (Ok (), s')
    ∧ document s' = document s ∧ _id s' = _id s
    ∧ _id_stack s' = _id_stack s
    ∧ freed (new_lines s s') = entries.*1
    ∧ (∀ c', c' ≠ c -> cells s' !! c' = cells s !! c')
    ∧ (∀ k, subs c s' !! k
            = if decide (k ∈ entries.*1) then None else subs c s !! k).
Proof.
  intros Hall. revert s Hall.
  induction entries as [|[id node] rest IH]; intros s Hall; simpl.
  - exists s. split_and!; try done. unfold new_lines. by rewrite drop_all.
  - apply Forall_cons in Hall as [Hid Hall]. simpl in Hid. rewrite Hid.
    set (s3 := delete_subscriber c id _).
    assert (H3 : document s3 = document s ∧ _id s3 = _id s
                 ∧ _id_stack s3 = _id_stack s
                 ∧ console s3 = console s ++ [LogVisit id node; LogFree id]
                 ∧ (∀ c', c' ≠ c -> cells s3 !! c' = cells s !! c')).
    { unfold s3, delete_subscriber. simpl.
      destruct (cells s !! c); simpl; rewrite <- ?app_assoc; split_and!; try done.
      intros c' Hne. by rewrite lookup_insert_ne. }
    destruct H3 as (Hdoc3 & Hid3 & Hst3 & Hcon3 & Hcells3).
    destruct (IH s3) as (s' & Hloop & Hdoc & Hid' & Hst & Hfr & Hcells & Hsubs).
    { by rewrite Hdoc3. }
    exists s'. split_and!; try congruence.
    + apply set_loop_frame in Hloop as [lines H].
      pose proof (wf_console _ _ _ _ _ _ H) as Hc.
      rewrite (new_lines_app _ _ _ Hc) in Hfr.
      rewrite Hcon3, <- app_assoc in Hc.
      rewrite (new_lines_app _ _ _ Hc). simpl. by rewrite Hfr.
    + intros c' Hne. by rewrite Hcells, Hcells3.
    + intros k. rewrite Hsubs. unfold s3. rewrite subs_delete_subscriber.
      rewrite (decide_True (P := c = c)) by done.
      rewrite subs_console_log, subs_console_log.
      destruct (decide (k = id)) as [->|Hne].
      * rewrite lookup_delete_eq.
        repeat case_decide; try done; exfalso; set_solver.
      * rewrite lookup_delete_ne by done.
        repeat case_decide; try done; exfalso; set_solver.
Qed.

(** X11: a write to a cell none of whose subscribers has its node in the
    document frees every entry and calls no component: afterwards the
    subscriber table of the cell is empty, every identifier that was in
    it is logged as freed, in ascending order, and the document, the
    counter, the stack and the other cells are untouched. *)
Theorem set_frees_unmounted_subscribers c x s rec :
  cells s !! c = Some rec ->
  (∀ k f, subscribers rec !! k = Some f ->
     querySelector (pretty k) (document s) = None) ->
  ∃ s', set c x s = (Ok (), s')
    ∧ subs c s' = ∅
    ∧ freed (new_lines s s') = (Object_entries (subscribers rec)).*1
    ∧ document s' = document s ∧ _id s' = _id s
    ∧ _id_stack s' = _id_stack s
    ∧ ∀ c', c' ≠ c -> cells s' !! c' = cells s !! c'.
Proof.
  intros Hc Hstale. rewrite set_unfold, Hc.
  assert (Hsubs : subs c s = subscribers rec) by (unfold subs; by rewrite Hc).
  destruct (store_globals c x s) as (Hid0 & Hst0 & Hdoc0 & Hcon0).
  destruct (set_loop_unlocated c (Object_entries (subs c s)) (store c x s))
    as (s' & Hloop & Hdoc & Hid & Hst & Hfr & Hcells & Hk).
  { apply Forall_forall. intros [k f] Hin. simpl. rewrite Hdoc0.
    apply elem_of_Object_entries in Hin. rewrite Hsubs in Hin. by eapply Hstale. }
  exists s'. split_and!; try congruence.
  - apply map_eq. intros k. rewrite Hk, lookup_empty, subs_store.
    destruct (decide _) as [|Hnotin]; [done|].
    destruct (subs c s !! k) as [f|] eqn:Hf; [|done].
    exfalso. apply Hnotin, list_elem_of_fmap. exists (k, f).
    split; [done|]. by apply elem_of_Object_entries.
  - unfold new_lines in *. rewrite <- Hcon0, Hfr. by rewrite Hsubs.
  - intros c' Hne. rewrite Hcells by done. unfold store. rewrite Hc. simpl.
    by rewrite lookup_insert_ne.
Qed.

Lemma Object_entries_sorted m : StronglySorted lt (Object_entries m).*1.
Proof.
  assert (Htrans : Transitive entry_le).
  { intros a b c. unfold entry_le. lia. }
  assert (Htotal : Total entry_le).
  { intros a b. unfold entry_le. lia. }
  pose proof (StronglySorted_merge_sort entry_le (map_to_list m)) as Hs.
  pose proof (NoDup_Object_entries m) as Hnd. unfold Object_entries in *.
  induction Hs as [|e l Hl IH Hall]; simpl; [constructor|].
  simpl in Hnd. apply NoDup_cons in Hnd as [Hnotin Hnd].
  constructor; [by apply IH|].
  apply Forall_fmap, Forall_forall. intros e' Hin. simpl.
  pose proof (proj1 (Forall_forall _ _) Hall e' Hin) as Hle. unfold entry_le in Hle.
  destruct (decide (e.1 = e'.1)) as [Heq|]; [|lia].
  exfalso. apply Hnotin. rewrite Heq. apply list_elem_of_fmap. by exists e'.
Qed.

(** X12: a write that returns has notified the subscribers of the cell
    in strictly ascending order of identifier, that is from the oldest
    context to the newest, whatever the order in which they subscribed;
    the subscribers it visited are exactly those the cell had when the
    write began. *)
Theorem set_visits_in_ascending_order c x s s' :
  set c x s = (Ok (), s') ->
  StronglySorted lt (visits (new_lines s s')).*1
  ∧ ∀ k f, (k, f) ∈ visits (new_lines s s') ↔ subs c s !! k = Some f.
Proof.
  intros Hset. apply set_frame in Hset as (lines & Hcon & _ & _ & Hvis & _).
  rewrite (new_lines_app _ _ _ Hcon), (Hvis eq_refl). split.
  - apply Object_entries_sorted.
  - intros k f. apply elem_of_Object_entries.
Qed.

Lemma length_replaceWith p new l : length (replaceWith p new l) = length l.
Proof.
  destruct p as [|i [|j q]]; simpl; [done|by rewrite length_insert|].
  destruct (l !! i) as [[t a pr c ch|d]|]; [|done..].
  by rewrite length_insert.
Qed.

Lemma set_loop_document_length c entries s :
  length (document (set_loop c entries s).2) = length (document s).
Proof.
  revert s. induction entries as [|[id node] rest IH]; intros s; simpl; [done|].
  destruct (querySelector _ _) as [el|].
  - destruct (render_ret _ _) as [[dom|e] s2] eqn:Hr;
      apply render_ret_frame in Hr; pose proof (rf_document _ _ _ Hr) as Hdoc;
      simpl in Hdoc.
    + destruct (stamp id dom) as [dom'|e]; simpl; [|by rewrite Hdoc].
      rewrite IH. simpl. by rewrite length_replaceWith, Hdoc.
    + simpl. by rewrite Hdoc.
  - rewrite IH. unfold delete_subscriber. simpl. by destruct (cells s !! c).
Qed.

(** X13: a write replaces nodes where they stand: it never adds a node
    to the body nor removes one from it, and it never lowers the
    identifier counter; when it returns normally the context stack is
    the one it was called with. *)
Theorem set_keeps_body_and_stack c x s :
  length (document (set c x s).2) = length (document s)
  ∧ _id s ≤ _id (set c x s).2
  ∧ (is_ok (set c x s).1 = true -> _id_stack (set c x s).2 = _id_stack s).
Proof.
  rewrite set_unfold. destruct (cells s !! c) as [rec|] eqn:Hc; [|done].
  destruct (store_globals c x s) as (Hid0 & Hst0 & Hdoc0 & _).
  split; [by rewrite set_loop_document_length, Hdoc0|].
  destruct (set_loop c _ (store c x s)) as [r s'] eqn:Hloop. simpl.
  apply set_loop_frame in Hloop as [lines H].
  destruct H as [Hid (extra & Hst & He) _ _ _ _ _ _].
  split; [lia|]. intros Hok. by rewrite Hst, (He Hok), Hst0.
Qed.

(** ** Identifiers *)

Lemma render_frame_ids_allocated s b s' :
  render_frame s b s' -> ids_allocated s -> ids_allocated s'.
Proof.
  intros [Hid (extra & Hst & Hb & _) _ _ _ Hsub] [Hsubs Hstack]. split.
  - intros c k [f Hf].
    destruct (Hsub c k) as [Heq|(g & _ & [Hfresh|Hcur])]; [|lia|].
    + rewrite Heq in Hf. specialize (Hsubs c k (ex_intro _ f Hf)). lia.
    + unfold current_id in Hcur. destruct (_id_stack s) as [|e st]; [done|].
      simpl in Hcur. injection Hcur as ->. apply Forall_cons in Hstack as [He _].
      simpl in He. lia.
  - rewrite Hst. apply Forall_app. split.
    + eapply Forall_impl; [exact Hb|]. simpl. intros; lia.
    + eapply Forall_impl; [exact Hstack|]. simpl. intros; lia.
Qed.

Lemma delete_subscriber_ids_allocated c id s :
  ids_allocated s -> ids_allocated (delete_subscriber c id s).
Proof.
  intros [Hsubs Hstack].
  assert (Hg : _id (delete_subscriber c id s) = _id s
               ∧ _id_stack (delete_subscriber c id s) = _id_stack s).
  { unfold delete_subscriber. by destruct (cells s !! c). }
  destruct Hg as [Hid Hst]. split.
  - intros c' k [f Hf]. rewrite Hid. rewrite subs_delete_subscriber in Hf.
    destruct (decide (c' = c)) as [->|]; [|by apply (Hsubs c'); exists f].
    apply lookup_delete_Some in Hf as [_ Hf]. apply (Hsubs c). by exists f.
  - by rewrite Hid, Hst.
Qed.

Lemma set_loop_ids_allocated c entries s :
  ids_allocated s -> ids_allocated (set_loop c entries s).2.
Proof.
  revert s. induction entries as [|[id node] rest IH]; intros s Hs; simpl; [done|].
  destruct (querySelector _ _) as [el|].
  - destruct (render_ret _ _) as [[dom|e] s2] eqn:Hr;
      apply render_ret_frame in Hr;
      apply render_frame_ids_allocated in Hr; [|exact Hs| |exact Hs].
    + destruct (stamp id dom) as [dom'|e]; [|done]. by apply IH.
    + done.
  - apply IH. by apply delete_subscriber_ids_allocated.
Qed.

Lemma step_ids_allocated o s : ids_allocated s -> ids_allocated (step o s).
Proof.
  intros Hs. destruct o as [c x|c|c x|node|node]; simpl.
  - destruct Hs as [Hsubs Hstack]. split; [by apply state_allocated|done].
  - destruct (cell_get c s) as [r s'] eqn:Hget. apply cell_get_frame in Hget.
    by eapply render_frame_ids_allocated.
  - rewrite set_unfold. destruct (cells s !! c) as [rec|] eqn:Hc; [|done].
    apply set_loop_ids_allocated. destruct Hs as [Hsubs Hstack].
    destruct (store_globals c x s) as (Hid & Hst & _). split.
    + intros c' k. rewrite subs_store, Hid. apply Hsubs.
    + by rewrite Hid, Hst.
  - destruct (RenderDOM node s) as [r s'] eqn:Hr. apply RenderDOM_frame in Hr.
    by eapply render_frame_ids_allocated.
  - unfold mount. destruct (RenderDOM node s) as [[[dom|]|e] s'] eqn:Hr;
      apply RenderDOM_frame in Hr;
      by apply render_frame_ids_allocated in Hr.
Qed.

(** X14: after any sequence of calls from the top level, failed ones
    included, every identifier found in a subscriber table or on the
    context stack was handed out by [uid] earlier: it is below the
    counter.  So the identifier [uid] hands out next is in no table and
    not on the stack. *)
Theorem run_ids_allocated ops :
  ids_allocated (run ops)
  ∧ (∀ c, subs c (run ops) !! _id (run ops) = None)
  ∧ _id (run ops) ∉ (_id_stack (run ops)).*1.
Proof.
  assert (H : ids_allocated (run ops)).
  { unfold run. induction ops as [|o ops IH] using rev_ind.
    - split; [apply initial_allocated|constructor].
    - rewrite foldl_app. simpl. by apply step_ids_allocated. }
  split; [done|]. destruct H as [Hsubs Hstack]. split.
  - intros c. destruct (subs c (run ops) !! _id (run ops)) as [f|] eqn:Hf; [|done].
    specialize (Hsubs c _ (ex_intro _ f Hf)). lia.
  - intros Hin. apply list_elem_of_fmap in Hin as (e & He & Hin).
    pose proof (proj1 (Forall_forall _ _) Hstack e Hin) as Hlt. simpl in Hlt. lia.
Qed.

(** ** From rendering to re-rendering *)

Lemma find_in_snoc Q l n q :
  find_in Q l = None -> Q n = Some q ->
  find_in Q (l ++ [n]) = Some (length l :: q).
Proof.
  intros Hl Hn. induction l as [|a l IH]; simpl in *.
  - by rewrite Hn.
  - destruct (Q a); [done|]. destruct (find_in Q l); [done|].
    by rewrite IH.
Qed.

(** X15: a component mounted on the body is found again through its
    identifier: when no element of the document carries the next
    identifier yet, a successful [mount] of a component appends one
    element, stamped with that identifier, and the lookup made by [set]
    for that identifier then finds this element, the last node of the
    body. *)
Theorem mount_component_locatable f s s' :
  mount (VFun f) s = (Ok (), s') ->
  querySelector (pretty (_id s)) (document s) = None ->
  ∃ el, document s' = document s ++ [el]
    ∧ getAttribute "data-uid" el = Some (pretty (_id s))
    ∧ querySelector (pretty (_id s)) (document s') = Some [length (document s)]
    ∧ node_at [length (document s)] (document s') = Some el.
Proof.
  unfold mount. destruct (RenderDOM (VFun f) s) as [[[dom|]|e] s1] eqn:Hr; [|done..].
  intros [= <-] Hnone.
  pose proof (rf_document _ _ _ (RenderDOM_frame _ _ _ _ Hr)) as Hdoc.
  apply RenderDOM_component_result in Hr as (_ & el & [= <-] & Htag & Hattr).
  simpl. rewrite Hdoc. exists dom. split_and!; [done|done|..].
  - unfold querySelector in *. apply find_in_snoc; [done|].
    destruct dom as [t a p c ch|d]; [|done]. simpl in *.
    by rewrite bool_decide_true.
  - simpl. by rewrite lookup_app_r, Nat.sub_diag.
Qed.

Lemma render_ret_subscribes body s dom s' id f c :
  render_ret body s = (Ok dom, s') ->
  current_id s = Some (id, f) -> id < _id s ->
  c ∈ reads_of body s ->
  subs c s' !! id = Some f.
Proof.
  revert s. induction body as [v|c0 k IH|d]; intros s Hr Hcur Hid Hin; simpl in *.
  - by apply elem_of_nil in Hin.
  - destruct (cell_get c0 s) as [[d|e] s1] eqn:Hget; [|done].
    pose proof (cell_get_globals _ _ _ _ Hget) as (Hid1 & Hst1 & _).
    assert (Hcur1 : current_id s1 = Some (id, f)).
    { unfold current_id in *. by rewrite Hst1. }
    apply elem_of_cons in Hin as [->|Hin].
    + assert (H1 : subs c0 s1 !! id = Some f).
      { apply cell_get_spec in Hget as [(? & _)|(rec & Hc & _ & Hs1)]; [done|].
        rewrite Hcur in Hs1. subst s1.
        rewrite subs_with_cells_insert, decide_True by done.
        apply lookup_insert_eq. }
      apply render_ret_frame in Hr.
      destruct (rf_subs _ _ _ Hr c0 id) as [Heq|(g & Hg & [Hfresh|Hc])].
      * by rewrite Heq.
      * lia.
      * rewrite Hcur1 in Hc. by injection Hc as <-.
    + eapply IH; [done|done|lia|done].
  - by apply elem_of_nil in Hin.
Qed.

(** X16: when [RenderDOM] returns from a component, every cell the call
    of the component read has the component among its subscribers, under
    the identifier stamped on the element returned; the components nested
    in its description do not take that entry away. *)
Theorem RenderDOM_subscribes_cells_read f s dom s' c :
  RenderDOM (VFun f) s = (Ok dom, s') ->
  c ∈ reads_of (body_of f) (push (_id s, f) (with_id (S (_id s)) s)) ->
  subs c s' !! _id s = Some f
  ∧ ∃ el, dom = Some el ∧ getAttribute "data-uid" el = Some (pretty (_id s)).
Proof.
  intros Hr Hin. split.
  - destruct f as [body]. simpl in Hr.
    destruct (render_ret (body []) _) as [[dom0|e] s2] eqn:Hret; [|done].
    destruct (stamp (_id s) dom0); [|done]. injection Hr as _ <-.
    change (subs c (pop s2)) with (subs c s2).
    eapply render_ret_subscribes; [exact Hret|done|simpl; lia|done].
  - apply RenderDOM_component_result in Hr as (_ & el & -> & _ & Hattr).
    by exists el.
Qed.

Lemma node_at_cons i q l :
  node_at (i :: q) l
  = match q with
    | [] => l !! i
    | _ :: _ =>
        match l !! i with
        | Some (Element _ _ _ _ ch) => node_at q ch
        | _ => None
        end
    end.
Proof. by destruct q. Qed.

Lemma lookup_replaceWith_ne i p new l j :
  i ≠ j -> replaceWith (i :: p) new l !! j = l !! j.
Proof.
  intros Hne. destruct p as [|k p]; simpl.
  - by apply list_lookup_insert_ne.
  - destruct (l !! i) as [[t a pr c ch|d]|]; [|done..].
    by apply list_lookup_insert_ne.
Qed.

Lemma node_at_replaceWith_disjoint p q new l :
  disjoint_paths p q = true ->
  node_at q (replaceWith p new l) = node_at q l.
Proof.
  revert q l. induction p as [|i p IH]; intros [|j q] l Hd; simpl in Hd; try done.
  destruct (decide (i = j)) as [<-|Hne].
  - destruct p as [|k p]; [done|]. destruct q as [|m q]; [done|].
    rewrite !(node_at_cons i (m :: q)).
    change (replaceWith (i :: k :: p) new l)
      with (match l !! i with
            | Some (Element t a pr c ch) =>
                <[i := Element t a pr c (replaceWith (k :: p) new ch)]> l
            | _ => l
            end).
    destruct (l !! i) as [[t a pr c ch|d]|] eqn:Hi; [|by rewrite Hi..].
    rewrite list_lookup_insert_eq by (by eapply lookup_lt_Some).
    by apply IH.
  - rewrite !(node_at_cons j q). by rewrite lookup_replaceWith_ne.
Qed.

Lemma Object_entries_singleton id node :
  Object_entries {[id := node]} = [(id, node)].
Proof. unfold Object_entries. by rewrite map_to_list_singleton. Qed.

(** X17: a write to a cell with a single subscriber changes the document
    only at the node of that subscriber: at every path that neither leads
    through that node nor stops above it, the document holds the same
    node before and after, whether the re-render succeeds or raises.  A
    child component that alone reads a cell is re-rendered without its
    siblings being touched. *)
Theorem set_rerender_is_local c x s rec id node el q :
  cells s !! c = Some rec ->
  subscribers rec = {[id := node]} ->
  querySelector (pretty id) (document s) = Some el ->
  disjoint_paths el q = true ->
  node_at q (document (set c x s).2) = node_at q (document s).
Proof.
  intros Hc Hsub Hq Hd. rewrite set_unfold, Hc.
  assert (Hs : subs c s = {[id := node]}) by (unfold subs; by rewrite Hc).
  rewrite Hs, Object_entries_singleton.
  destruct (store_globals c x s) as (_ & _ & Hdoc0 & _). simpl.
  rewrite Hdoc0, Hq.
  destruct (render_ret _ _) as [[dom|e] s2] eqn:Hr;
    apply render_ret_frame in Hr; pose proof (rf_document _ _ _ Hr) as Hdoc;
    simpl in Hdoc; rewrite Hdoc0 in Hdoc.
  - destruct (stamp id dom) as [dom'|e]; simpl; [|by rewrite Hdoc].
    rewrite Hdoc. by apply node_at_replaceWith_disjoint.
  - simpl. by rewrite Hdoc.
Qed.

(** ** A write that raises *)

Lemma set_loop_raise_split c entries s e s' :
  set_loop c entries s = (Raise e, s') ->
  ∃ pre k node post s_mid, entries = pre ++ (k, node) :: post
    ∧ set_loop c pre s = (Ok (), s_mid)
    ∧ set_loop c [(k, node)] s_mid = (Raise e, s').
Proof.
  revert s. induction entries as [|[id node] rest IH]; intros s; [done|].
  destruct (set_loop c [(id, node)] s) as [[[]|e0] s1] eqn:Hstep.
  - change ((id, node) :: rest) with ([(id, node)] ++ rest).
    rewrite set_loop_app, Hstep. intros H.
    apply IH in H as (pre & k & n & post & s_mid & -> & Hpre & Hk).
    exists ((id, node) :: pre), k, n, post, s_mid. split; [done|].
    split; [|done].
    change ((id, node) :: pre) with ([(id, node)] ++ pre).
    by rewrite set_loop_app, Hstep.
  - change ((id, node) :: rest) with ([(id, node)] ++ rest).
    rewrite set_loop_app, Hstep. intros [= <- <-].
    by exists [], id, node, rest, s.
Qed.

(** A visit that raises has logged the entry and nothing else. *)
Lemma set_loop_visit_raise c id node s e s' :
  set_loop c [(id, node)] s = (Raise e, s') ->
  console s' = console s ++ [LogVisit id node].
Proof.
  rewrite set_loop_cons.
  destruct (querySelector _ _) as [el|]; [|done].
  destruct (render_ret _ _) as [[dom|e0] s2] eqn:Hr;
    apply render_ret_frame in Hr; pose proof (rf_console _ _ _ Hr) as Hcon.
  - destruct (stamp id dom); [done|]. by intros [= _ <-].
  - by intros [= _ <-].
Qed.

Lemma visits_app l1 l2 : visits (l1 ++ l2) = visits l1 ++ visits l2.
Proof. apply omap_app. Qed.

(** X18: a write made on an empty stack that raises has stopped at one
    entry: the entries before it in the order of the identifiers were
    visited without an exception, the visit of that entry raised the
    exception of the write and left the state the write ends in, and the
    entries after it were not visited: the console shows the visits up
    to the failing entry and no further, and the later entries are in
    the table as they were, so their nodes keep showing the old value
    although the cell holds the new one. *)
Theorem set_raise_stops_notification c x s e s' :
  set c x s = (Raise e, s') ->
  _id_stack s = [] ->
  subs_allocated s ->
  cells s !! c ≠ None ->
  ∃ pre k node post s_mid,
    Object_entries (subs c s) = pre ++ (k, node) :: post
    ∧ set_loop c pre (store c x s) = (Ok (), s_mid)
    ∧ set_loop c [(k, node)] s_mid = (Raise e, s')
    ∧ visits (new_lines s s') = pre ++ [(k, node)]
    ∧ ∀ k' f', (k', f') ∈ post -> subs c s' !! k' = Some f'.
Proof.
  intros Hset Hst Halloc Hc. rewrite set_unfold in Hset.
  destruct (cells s !! c) as [rec|]; [clear Hc|done].
  destruct (store_globals c x s) as (Hid0 & Hst0 & _ & Hcon0).
  apply set_loop_raise_split in Hset
    as (pre & k & node & post & s_mid & Hent & Hpre & Hk).
  exists pre, k, node, post, s_mid. split_and!; [done..| |].
  - pose proof (set_loop_visit_raise _ _ _ _ _ _ Hk) as Hcon.
    apply set_loop_frame in Hpre as [l1 W1].
    pose proof (wf_console _ _ _ _ _ _ W1) as Hcon1.
    destruct (wf_visits _ _ _ _ _ _ W1) as [_ Hvis].
    rewrite Hcon1, Hcon0, <- app_assoc in Hcon.
    rewrite (new_lines_app _ _ _ Hcon), visits_app, (Hvis eq_refl). done.
  - intros k' f' Hin.
    pose proof (NoDup_Object_entries (subs c s)) as Hnd. rewrite Hent in Hnd.
    assert (Hnotin : k' ∉ (pre ++ [(k, node)]).*1).
    { rewrite fmap_app, fmap_cons in Hnd. apply NoDup_app in Hnd as (_ & Hp & Hnd).
      apply NoDup_cons in Hnd as [Hk' _].
      assert (Hk'' : k' ∈ post.*1) by (apply list_elem_of_fmap; by exists (k', f')).
      rewrite fmap_app. intros Hx. apply elem_of_app in Hx as [Hx|Hx].
      - apply (Hp k' Hx). by right.
      - apply list_elem_of_singleton in Hx. simpl in Hx. by subst k'. }
    assert (Hsome : subs c s !! k' = Some f').
    { apply elem_of_Object_entries. rewrite Hent. set_solver. }
    assert (Hloop : set_loop c (pre ++ [(k, node)]) (store c x s) = (Raise e, s')).
    { by rewrite set_loop_app, Hpre. }
    apply set_loop_frame in Hloop as [lines W].
    rewrite <- Hsome, <- (subs_store c x c s).
    eapply write_frame_unvisited; [exact W|by rewrite Hst0| |done].
    rewrite Hid0. apply (Halloc c). by exists f'.
Qed.

(** ** The document as an HTML document *)































End minivdom.

(** * Part IV: the properties at work *)

(** The instances below run the program in a browser that makes the name
    checks of the DOM Living Standard. *)
#[global] Existing Instance living_standard.

(** ** Stack discipline *)

Lemma RenderDOM_stack_balanced_on_return_witness :
  ∃ extra, _id_stack (push (0, thrower) (with_id 1 initial))
           = extra ++ entered (VFun thrower) initial ++ _id_stack initial.
Proof.
  apply (RenderDOM_stack_balanced_on_return (VFun thrower) initial
           (Raise (Thrown (DStr "boom"))) (push (0, thrower) (with_id 1 initial))).
  vm_compute. reflexivity.
Defined.

(** C1 (as stated) fails: a component that throws leaves its context on
    the stack. *)
Lemma RenderDOM_raise_keeps_context :
  (RenderDOM (VFun thrower) initial).1 = Raise (Thrown (DStr "boom"))
  ∧ _id_stack (RenderDOM (VFun thrower) initial).2 = [(0, thrower)]
  ∧ _id_stack (RenderDOM (VFun thrower) initial).2 ≠ _id_stack initial.
Proof. by repeat split. Qed.

Lemma RenderDOM_falsy_component_raises_witness :
  RenderDOM (VFun blank) initial
  = (Raise TypeError, push (0, blank) (with_id 1 initial))
  ∧ _id_stack (push (0, blank) (with_id 1 initial)) = (0, blank) :: []
  ∧ _id_stack (push (0, blank) (with_id 1 initial)) ≠ [].
Proof.
  apply (RenderDOM_falsy_component_raises blank initial DNull); reflexivity.
Defined.

(** ** Primitive input *)

(** C4 (as stated) fails: [0], [false] and the empty string render to
    nothing. *)
Lemma RenderDOM_falsy_primitives :
  RenderDOM (VData (DNum 0)) initial = (Ok None, initial)
  ∧ RenderDOM (VData (DBool false)) initial = (Ok None, initial)
  ∧ RenderDOM (VData (DStr "")) initial = (Ok None, initial).
Proof. by repeat split. Qed.

(** ** Component functions and arguments *)



(** ** Registration of a reader *)

Lemma reads_register_once_witness :
  ∃ s', invoke (read_times 3 "counter" (VData DNull))
          (push (7, blank) app_cells) = (Ok (VData DNull), s')
    ∧ subs "counter" s' = <[7 := blank]> (subs "counter" (push (7, blank) app_cells))
    ∧ length (filter (λ e, e.1 = 7) (Object_entries (subs "counter" s'))) = 1.
Proof.
  apply (reads_register_once 3 "counter" (VData DNull) (push (7, blank) app_cells)
           7 blank (MkCell (DNum 0) ∅)); [lia|reflexivity|vm_compute; reflexivity].
Defined.

(** ** The element of a description *)

Lemma RenderDOM_tag_specifier_witness :
  let frs := [FClass "primary"; FId "go"; FClass "large"; FId "stop";
              FClass "primary"] in
  let rest := [VObj [EHandler "click" (HandlerRef "go")]; str "Go"] in
  (∀ dom s',
     RenderDOM (VArr (str (spec_of "BUTTON" frs) :: rest)) initial = (Ok dom, s') ->
     ∃ el, dom = Some el
       ∧ tag_of el = Some (lower "BUTTON")
       ∧ (∀ c, FClass c ∈ frs -> c ∈ classes_of el)
       ∧ ((split_attrs rest).1 = None ->
          classes_of el = foldl add_token [] (tokens_of "." frs)
          ∧ NoDup (classes_of el)
          ∧ ∀ c, c ∈ classes_of el -> FClass c ∈ frs)
       ∧ (tokens_of "." frs ≠ [] ->
          getAttribute "class" el = Some (join_tokens (classes_of el)))
       ∧ (∀ i, head (tokens_of "#" frs) = Some i ->
            getAttribute "id" el = Some i))
  ∧ (valid_element_name "BUTTON" = true ->
     Forall (λ c, no_whitespace c = true) (tokens_of "." frs) ->
     ∃ el, RenderDOM (VArr [str (spec_of "BUTTON" frs)]) initial
           = (Ok (Some el), initial))
  ∧ (valid_element_name "BUTTON" = true ->
     Exists (λ c, no_whitespace c = false) (tokens_of "." frs) ->
     RenderDOM (VArr [str (spec_of "BUTTON" frs)]) initial
     = (Raise InvalidCharacterError, initial))
  ∧ (valid_element_name "BUTTON" = false ->
     RenderDOM (VArr (str (spec_of "BUTTON" frs) :: rest)) initial
     = (Raise InvalidCharacterError, initial)).
Proof.
  apply (RenderDOM_tag_specifier "BUTTON"
           [FClass "primary"; FId "go"; FClass "large"; FId "stop";
            FClass "primary"]
           [VObj [EHandler "click" (HandlerRef "go")]; str "Go"] initial).
  - reflexivity.
  - repeat constructor.
Defined.

(** ** Re-rendering a subscriber *)

Lemma set_loop_rerenders_located_witness :
  set_loop "counter" [(0, label)] (store "counter" (DNum 1) label_mounted)
  = set_loop "counter" []
      (with_document
         (replaceWith [0]
            (Element "p" (assoc_set "data-uid" (pretty 0) []) [] []
               [TextNode "count: "; TextNode "1"])
            (document (store "counter" (DNum 1) label_mounted)))
         (console_log (LogVisit 0 label) (store "counter" (DNum 1) label_mounted)))
  ∧ _id_stack (console_log (LogVisit 0 label) (store "counter" (DNum 1) label_mounted))
    = _id_stack (store "counter" (DNum 1) label_mounted)
  ∧ _id (console_log (LogVisit 0 label) (store "counter" (DNum 1) label_mounted))
    = _id (store "counter" (DNum 1) label_mounted)
  ∧ querySelector (pretty 0)
      (replaceWith [0]
         (Element "p" (assoc_set "data-uid" (pretty 0) []) [] []
            [TextNode "count: "; TextNode "1"])
         (document (store "counter" (DNum 1) label_mounted))) = Some [0]
  ∧ node_at [0]
      (replaceWith [0]
         (Element "p" (assoc_set "data-uid" (pretty 0) []) [] []
            [TextNode "count: "; TextNode "1"])
         (document (store "counter" (DNum 1) label_mounted)))
    = Some (Element "p" (assoc_set "data-uid" (pretty 0) []) [] []
              [TextNode "count: "; TextNode "1"]).
Proof.
  apply (set_loop_rerenders_located "counter" 0 label []
           (store "counter" (DNum 1) label_mounted) [0]
           (VArr [str "p"; str "count: "; VData (DNum 1)])
           (console_log (LogVisit 0 label) (store "counter" (DNum 1) label_mounted)));
    vm_compute; reflexivity.
Defined.

(** C2 (as stated) fails: the write on [stuff] re-invokes [myApp] without
    a context of its own.  No identifier is allocated for it and its
    reads register nothing; rendered through the renderer it would have
    taken the identifier 2 and subscribed under it. *)
Lemma set_pushes_no_context :
  let code := set "stuff" (DObj [("title", DStr "goodbye crabs")]) app_mounted in
  let spec :=
    set_through_renderer "stuff" (DObj [("title", DStr "goodbye crabs")])
      app_mounted in
  code.1 = Ok () ∧ spec.1 = Ok ()
  ∧ _id app_mounted = 2
  ∧ _id code.2 = 3 ∧ (Object_entries (subs "stuff" code.2)).*1 = [0]
  ∧ _id spec.2 = 4 ∧ (Object_entries (subs "stuff" spec.2)).*1 = [0; 2].
Proof. vm_compute. by split_and!. Qed.

(** ** Subscriber tables across a write *)





(** ** Pruning during a write *)

Lemma set_loop_prunes_at_visit_witness :
  let c := "counter" in
  let entries := [(0, myApp); (1, myComp); (2, myComp)] in
  let s := store "counter" (DNum 1) app_retitled in
  let s' := (set "counter" (DNum 1) app_retitled).2 in
  visits (new_lines s s') `prefix_of` entries
  ∧ (Ok () = Ok () -> visits (new_lines s s') = entries)
  ∧ (∀ pre id node post s_mid,
       entries = pre ++ (id, node) :: post ->
       set_loop c pre s = (Ok (), s_mid) ->
       set_loop c (pre ++ [(id, node)]) s = set_loop c [(id, node)] s_mid
       ∧ match querySelector (pretty id) (document s_mid) with
         | None =>
             ∃ s_next, set_loop c [(id, node)] s_mid = (Ok (), s_next)
               ∧ subs c s_next !! id = None
               ∧ freed (new_lines s_mid s_next) = [id]
               ∧ document s_next = document s_mid
         | Some el =>
             freed (new_lines s_mid (set_loop c [(id, node)] s_mid).2) = []
             ∧ ∀ s_next, set_loop c [(id, node)] s_mid = (Ok (), s_next) ->
                 ∃ v s1 dom s2 new,
                   call node (console_log (LogVisit id node) s_mid) = (Ok v, s1)
                   ∧ RenderDOM v s1 = (Ok dom, s2)
                   ∧ stamp id dom = Ok new
                   ∧ s_next
                     = with_document (replaceWith el new (document s_mid)) s2
                   ∧ getAttribute "data-uid" new = Some (pretty id)
                   ∧ querySelector (pretty id) (document s_next) = Some el
                   ∧ node_at el (document s_next) = Some new
                   ∧ is_Some (subs c s_next !! id)
         end)
  ∧ (_id_stack s = [] ->
     Forall (λ e, e.1 < _id s) entries ->
     Ok () = Ok () ->
     ∀ pre id node post, entries = pre ++ (id, node) :: post ->
       ∃ s_mid, set_loop c pre s = (Ok (), s_mid)
         ∧ subs c s' !! id
           = match querySelector (pretty id) (document s_mid) with
             | Some _ => Some node
             | None => None
             end).
Proof.
  apply (set_loop_prunes_at_visit "counter"
           [(0, myApp); (1, myComp); (2, myComp)]
           (store "counter" (DNum 1) app_retitled) (Ok ())
           (set "counter" (DNum 1) app_retitled).2).
  - vm_compute. reflexivity.
  - vm_compute. reflexivity.
Defined.

(** C6 (as stated) fails: after the title is changed, the table of
    [counter] holds the entries 0, 1 and 2, of which 1 is stale and 0 and
    2 are live.  The write on [counter] frees 1 and 2: the node of 2 is
    discarded when 0 is re-rendered, before 2 is visited. *)
Lemma set_prunes_live_entry :
  let s := set "counter" (DNum 1) app_retitled in
  (Object_entries (subs "counter" app_retitled)).*1 = [0; 1; 2]
  ∧ querySelector (pretty 0) (document app_retitled) = Some [0]
  ∧ querySelector (pretty 1) (document app_retitled) = None
  ∧ querySelector (pretty 2) (document app_retitled) = Some [0; 1]
  ∧ s.1 = Ok ()
  ∧ freed (new_lines app_retitled s.2) = [1; 2]
  ∧ subs "counter" s.2 !! 2 = None
  ∧ (Object_entries (subs "counter" s.2)).*1 = [0; 3].
Proof. vm_compute. by split_and!. Qed.

(** ** What rendering returns *)

Lemma RenderDOM_result_shape_witness :
  _id app_cells < _id (RenderDOM (VFun myApp) app_cells).2
  ∧ ∃ el, (Some (Element "div" [("data-uid", "0")] [] []
             [Element "h1" [] [] [] [TextNode "hello world"; TextNode " 0"];
              Element "div" [("data-uid", "1")] [] []
                [Element "p" [] [] [] [TextNode "current count: 0"];
                 Element "button" [] [("onclick", HandlerRef "increment")] []
                   [TextNode "increment"];
                 Element "button" [] [("onclick", HandlerRef "change title")] []
                   [TextNode "change title"]]])) = Some el
      ∧ tag_of el ≠ None
      ∧ getAttribute "data-uid" el = Some (pretty (_id app_cells)).
Proof.
  apply (RenderDOM_result_shape (VFun myApp) app_cells).
  vm_compute. reflexivity.
Defined.

Lemma RenderDOM_text_component_raises_witness :
  RenderDOM (VFun (Fn (λ _, Ret (str "just text")))) initial
  = (Raise TypeError,
     push (0, Fn (λ _, Ret (str "just text"))) (with_id 1 initial))
  ∧ _id_stack (push (0, Fn (λ _, Ret (str "just text"))) (with_id 1 initial))
    = (_id initial, Fn (λ _, Ret (str "just text"))) :: _id_stack initial.
Proof.
  apply (RenderDOM_text_component_raises
           (Fn (λ _, Ret (str "just text"))) initial (str "just text"));
    reflexivity.
Defined.


(** ** Element descriptions *)

Lemma match_all_well_formed_witness :
  ∃ tok, ".b" = String "." tok ∧ slice1 ".b" = tok ∧ tok ≠ ""
    ∧ no_sep tok = true.
Proof.
  apply (match_all_well_formed "." "a..b.#c#" ".b"). vm_compute. by left.
Defined.

Lemma RenderDOM_array_head_witness :
  RenderDOM (VArr [str ".red#main"; VFun myApp]) app_cells
  = (Raise TypeError, app_cells).
Proof.
  apply (RenderDOM_array_head [str ".red#main"; VFun myApp] app_cells).
  reflexivity.
Defined.

Lemma RenderDOM_data_children_witness :
  let ds := [DStr "count: "; DNum 0; DNull; DNum 7; DBigInt 12; DBool true] in
  RenderDOM
    (VArr (str "P.note" :: from_option (λ a, [VObj a]) [] None ++ (VData <$> ds)))
    initial
  = (match decorate "P.note" "P" None with
     | Raise e => Raise e
     | Ok el0 =>
         if forallb printable ds
         then Ok (Some (foldl (λ e n, appendChild n e) el0 (omap text_of ds)))
         else Raise TypeError
     end, initial)
  ∧ ∀ el0, decorate "P.note" "P" None = Ok el0 ->
      tag_of (foldl (λ e n, appendChild n e) el0 (omap text_of ds))
      = Some (lower "P")
      ∧ children_of (foldl (λ e n, appendChild n e) el0 (omap text_of ds))
        = omap text_of ds.
Proof.
  apply (RenderDOM_data_children "P.note" "P" None
           [DStr "count: "; DNum 0; DNull; DNum 7; DBigInt 12; DBool true]
           initial).
  - reflexivity.
  - intros _ d [= <-]. reflexivity.
Defined.

Lemma RenderDOM_attribute_map_witness :
  let attrs := [EHandler "click" (HandlerRef "go"); EAttr "Title" (DNum 3);
                EAttr "id" (DStr "other"); EAttr "class" (DStr "wide  primary")] in
  ∃ el, RenderDOM (VArr [str "button#go.primary.large"; VObj attrs]) initial
        = (Ok (Some el), initial)
    ∧ (∀ event h, EHandler event h ∈ attrs ->
         getProperty ("on" +:+ event) el = Some h)
    ∧ (∀ k d, EAttr k d ∈ attrs -> lower k ≠ "id" -> lower k ≠ "class" ->
         is_Some (to_string d) ∧ getAttribute k el = to_string d)
    ∧ (∀ n, lower n ≠ "id" -> lower n ≠ "class" ->
         (∀ k d, EAttr k d ∈ attrs -> lower k ≠ lower n) ->
         getAttribute n el = None)
    ∧ getAttribute "id" el
      = match match_all "#" "button#go.primary.large" with
        | i :: _ => Some (slice1 i)
        | [] => map_attr "id" attrs
        end
    ∧ classes_of el
      = foldl add_token (from_option class_tokens [] (map_attr "class" attrs))
          (slice1 <$> match_all "." "button#go.primary.large")
    ∧ getAttribute "class" el
      = match match_all "." "button#go.primary.large" with
        | [] => map_attr "class" attrs
        | _ :: _ => Some (join_tokens (classes_of el))
        end.
Proof.
  apply (RenderDOM_attribute_map "button#go.primary.large" "button"
           [EHandler "click" (HandlerRef "go"); EAttr "Title" (DNum 3);
            EAttr "id" (DStr "other"); EAttr "class" (DStr "wide  primary")]
           initial).
  - reflexivity.
  - reflexivity.
  - vm_compute. repeat constructor.
  - vm_compute. repeat constructor.
  - vm_compute. repeat constructor; set_solver.
Defined.

(** ** Writes *)

Lemma set_stores_value_witness :
  value <$> cells (set "counter" (DNum 5) app_mounted).2 !! "counter"
  = Some (DNum 5)
  ∧ ∀ c', c' ≠ "counter" ->
      value <$> cells (set "counter" (DNum 5) app_mounted).2 !! c'
      = value <$> cells app_mounted !! c'.
Proof.
  apply (set_stores_value "counter" (DNum 5) app_mounted
           (MkCell (DNum 0) (<[0 := myApp]> (<[1 := myComp]> ∅)))).
  vm_compute. reflexivity.
Defined.

Lemma set_frees_unmounted_subscribers_witness :
  ∃ s', set "counter" (DNum 1) (with_document [] app_mounted) = (Ok (), s')
    ∧ subs "counter" s' = ∅
    ∧ freed (new_lines (with_document [] app_mounted) s')
      = (Object_entries (subscribers
           (MkCell (DNum 0) (<[0 := myApp]> (<[1 := myComp]> ∅))))).*1
    ∧ document s' = document (with_document [] app_mounted)
    ∧ _id s' = _id (with_document [] app_mounted)
    ∧ _id_stack s' = _id_stack (with_document [] app_mounted)
    ∧ ∀ c', c' ≠ "counter" ->
        cells s' !! c' = cells (with_document [] app_mounted) !! c'.
Proof.
  apply (set_frees_unmounted_subscribers "counter" (DNum 1)
           (with_document [] app_mounted)
           (MkCell (DNum 0) (<[0 := myApp]> (<[1 := myComp]> ∅)))).
  - vm_compute. reflexivity.
  - intros k f _. reflexivity.
Defined.

Lemma set_visits_in_ascending_order_witness :
  StronglySorted lt
    (visits (new_lines app_retitled (set "counter" (DNum 1) app_retitled).2)).*1
  ∧ ∀ k f,
      (k, f) ∈ visits (new_lines app_retitled
                         (set "counter" (DNum 1) app_retitled).2)
      ↔ subs "counter" app_retitled !! k = Some f.
Proof.
  apply (set_visits_in_ascending_order "counter" (DNum 1) app_retitled).
  vm_compute. reflexivity.
Defined.

Lemma set_keeps_body_and_stack_witness :
  length (document (set "counter" (DNum 1) app_retitled).2)
  = length (document app_retitled)
  ∧ _id app_retitled ≤ _id (set "counter" (DNum 1) app_retitled).2
  ∧ (is_ok (set "counter" (DNum 1) app_retitled).1 = true ->
     _id_stack (set "counter" (DNum 1) app_retitled).2 = _id_stack app_retitled).
Proof. apply (set_keeps_body_and_stack "counter" (DNum 1) app_retitled). Defined.

(** ** From rendering to re-rendering *)

Lemma mount_component_locatable_witness :
  ∃ el, document app_mounted = document app_cells ++ [el]
    ∧ getAttribute "data-uid" el = Some (pretty (_id app_cells))
    ∧ querySelector (pretty (_id app_cells)) (document app_mounted)
      = Some [length (document app_cells)]
    ∧ node_at [length (document app_cells)] (document app_mounted) = Some el.
Proof.
  apply (mount_component_locatable myApp app_cells app_mounted);
    vm_compute; reflexivity.
Defined.

Lemma RenderDOM_subscribes_cells_read_witness :
  subs "stuff" (RenderDOM (VFun myApp) app_cells).2 !! _id app_cells = Some myApp
  ∧ ∃ el, (RenderDOM (VFun myApp) app_cells).1 = Ok (Some el)
      ∧ getAttribute "data-uid" el = Some (pretty (_id app_cells)).
Proof.
  destruct (RenderDOM (VFun myApp) app_cells) as [r s'] eqn:Hr.
  assert (Hok : ∃ dom, r = Ok dom).
  { assert (H : is_ok (RenderDOM (VFun myApp) app_cells).1 = true)
      by (vm_compute; reflexivity).
    rewrite Hr in H. destruct r; [by eexists|done]. }
  destruct Hok as [dom ->].
  destruct (RenderDOM_subscribes_cells_read myApp app_cells
              dom s' "stuff" Hr) as [Hsub (el & -> & Hattr)].
  - vm_compute. left.
  - split; [done|]. by exists el.
Defined.

Lemma set_rerender_is_local_witness :
  node_at [0; 0] (document (set "counter" (DNum 1) panel_mounted).2)
  = node_at [0; 0] (document panel_mounted).
Proof.
  apply (set_rerender_is_local "counter" (DNum 1) panel_mounted
           (MkCell (DNum 0) {[1 := label]}) 1 label [0; 1] [0; 0]);
    vm_compute; reflexivity.
Defined.

(** ** A write that raises *)

Lemma set_raise_stops_notification_witness :
  ∃ pre k node post s_mid,
    Object_entries (subs "counter" fragile_mounted) = pre ++ (k, node) :: post
    ∧ set_loop "counter" pre (store "counter" (DNum 1) fragile_mounted)
      = (Ok (), s_mid)
    ∧ set_loop "counter" [(k, node)] s_mid
      = (Raise (Thrown (DStr "boom")),
         (set "counter" (DNum 1) fragile_mounted).2)
    ∧ visits (new_lines fragile_mounted
                (set "counter" (DNum 1) fragile_mounted).2)
      = pre ++ [(k, node)]
    ∧ ∀ k' f', (k', f') ∈ post ->
        subs "counter" (set "counter" (DNum 1) fragile_mounted).2 !! k'
        = Some f'.
Proof.
  apply (set_raise_stops_notification "counter" (DNum 1) fragile_mounted
           (Thrown (DStr "boom"))).
  - vm_compute. reflexivity.
  - vm_compute. reflexivity.
  - apply (mount_allocated (VFun label)
             (mount (VFun fragile) (state "counter" (DNum 0) initial)).2 (Ok ()));
      [vm_compute; reflexivity..|].
    apply (mount_allocated (VFun fragile) (state "counter" (DNum 0) initial) (Ok ()));
      [vm_compute; reflexivity..|].
    apply state_allocated, initial_allocated.
  - vm_compute. discriminate.
Defined.

(** ** The document as an HTML document *)


(** ** The DOM operations on given names *)

Example lower_keeps_all_but_capitals :
  lower "DIV" = "div" ∧ lower "data-UID_1" = "data-uid_1".
Proof. by split. Qed.

Example class_attribute_tokens :
  class_tokens " wide  primary wide " = ["wide"; "primary"]
  ∧ join_tokens ["wide"; "primary"; "large"] = "wide primary large".
Proof. by split. Qed.

Example living_standard_names :
  valid_element_name "my-button" = true
  ∧ valid_element_name "1a" = false
  ∧ valid_element_name "my tag" = false
  ∧ valid_element_name "" = false
  ∧ valid_attribute_name "data-uid" = true
  ∧ valid_attribute_name "a b" = false
  ∧ valid_attribute_name "a=b" = false.
Proof. by split_and!. Qed.

Example refused_names_raise :
  (RenderDOM (VArr [str "1a"]) initial).1 = Raise InvalidCharacterError
  ∧ (RenderDOM (VArr [str "p.a b"]) initial).1 = Raise InvalidCharacterError
  ∧ (RenderDOM (VArr [str "p"; VObj [EAttr "a b" (DStr "x")]]) initial).1
    = Raise InvalidCharacterError
  ∧ (RenderDOM (VArr [str "p"; VObj [EAttr "title" (DSymbol "s")]]) initial).1
    = Raise TypeError
  ∧ (RenderDOM (VArr [str "p.y"; VObj [EAttr "class" (DStr "x")]]) initial).1
    = Ok (Some (Element "p" [("class", "x y")] [] ["x"; "y"] [])).
Proof. vm_compute. by split_and!. Qed.
